(** * prompt: requirements, chains and the prompt loop

    A shallow embedding of [src/prompt/__init__.py].

    Python strings are modelled as [string]; every character stands for a
    code point below 256.  Python integers are [Z]; converting between
    integers and strings fails, as in the interpreter, beyond
    [sys.int_max_str_digits] digits.  Exceptions are an explicit outcome,
    and the injected reader and writer of [Prompt] are an explicit trace
    of events together with a script of input lines. *)

From Stdlib Require Import ZArith List String Ascii Bool Lia.
From Stdlib Require Import DecimalString.
From Stdlib Require Decimal DecimalPos DecimalZ.
Import ListNotations.

Set Warnings "-register-all".

Local Open Scope string_scope.
Local Open Scope Z_scope.

(** ** Strings *)

Module Str.

Definition code (c : ascii) : Z := Z.of_nat (nat_of_ascii c).

(** [str.isspace] on code points below 256. *)
Definition is_space (c : ascii) : bool :=
  let n := code c in
  ((9 <=? n) && (n <=? 13)) || ((28 <=? n) && (n <=? 32))
  || (n =? 133) || (n =? 160).

Definition is_digit (c : ascii) : bool :=
  let n := code c in (48 <=? n) && (n <=? 57).

Definition digit_value (c : ascii) : Z := code c - 48.

(** [str.lower] on one code point below 256: A-Z and the Latin-1
    capitals (all of 192..222 but the multiplication sign 215). *)
Definition lower_char (c : ascii) : ascii :=
  let n := code c in
  if ((65 <=? n) && (n <=? 90))
     || ((192 <=? n) && (n <=? 222) && negb (n =? 215))
  then ascii_of_nat (nat_of_ascii c + 32)
  else c.

Fixpoint lower (s : string) : string :=
  match s with
  | EmptyString => EmptyString
  | String c s' => String (lower_char c) (lower s')
  end.

(** Dropping the leading characters that satisfy [p]. *)
Fixpoint lstrip_by (p : ascii -> bool) (s : string) : string :=
  match s with
  | EmptyString => EmptyString
  | String c s' => if p c then lstrip_by p s' else s
  end.

Fixpoint rev_acc (s acc : string) : string :=
  match s with
  | EmptyString => acc
  | String c s' => rev_acc s' (String c acc)
  end.

Definition rev (s : string) : string := rev_acc s EmptyString.

Definition rstrip_by (p : ascii -> bool) (s : string) : string :=
  rev (lstrip_by p (rev s)).

Definition strip_by (p : ascii -> bool) (s : string) : string :=
  rstrip_by p (lstrip_by p s).

(** [str.strip()] without argument. *)
Definition strip (s : string) : string := strip_by is_space s.

(** [sub in s] for strings. *)
Fixpoint contains (sub s : string) : bool :=
  if String.prefix sub s then true
  else match s with
       | EmptyString => false
       | String _ s' => contains sub s'
       end.

(** [sep.join(parts)]. *)
Fixpoint join (sep : string) (parts : list string) : string :=
  match parts with
  | [] => EmptyString
  | [p] => p
  | p :: ps => p ++ sep ++ join sep ps
  end.

Definition is_empty (s : string) : bool :=
  match s with EmptyString => true | _ => false end.

(** The decimal writing of an integer. *)
Definition decimal (z : Z) : string := NilZero.string_of_int (Z.to_int z).

(** [sys.int_max_str_digits], at its default value. *)
Definition int_max_str_digits : Z := 4300.

(** The number of decimal digits of [z], without the sign. *)
Definition digit_count (z : Z) : Z :=
  Z.of_nat (String.length (decimal (Z.abs z))).

(** [str(z)] for an [int], also what an f-string field renders: [None]
    stands for the ValueError raised when [z] has more digits than
    [int_max_str_digits]. *)
Definition of_Z (z : Z) : option string :=
  if int_max_str_digits <? digit_count z then None else Some (decimal z).

Definition LF : string := String (ascii_of_nat 10) EmptyString.

End Str.

(** ** Values *)

Inductive value : Type :=
| VNone
| VBool (b : bool)
| VInt (z : Z)
| VStr (s : string)
| VList (l : list value).

(** Truth value testing, as [not x] uses it. *)
Definition truthy (v : value) : bool :=
  match v with
  | VNone => false
  | VBool b => b
  | VInt z => negb (z =? 0)
  | VStr s => negb (Str.is_empty s)
  | VList l => match l with [] => false | _ => true end
  end.

(** The integer an [int] or [bool] compares as; [None] for a value on
    which [<=] against an [int] raises [TypeError]. *)
Definition as_int (v : value) : option Z :=
  match v with
  | VInt z => Some z
  | VBool b => Some (Z.b2z b)
  | _ => None
  end.

Module Repr.

Definition hex_digit (n : Z) : ascii :=
  if n <? 10 then ascii_of_nat (Z.to_nat (48 + n))
  else ascii_of_nat (Z.to_nat (87 + n)).

Definition printable (c : ascii) : bool :=
  let n := Str.code c in
  negb ((n <? 32) || ((127 <=? n) && (n <=? 160)) || (n =? 173)).

Definition escape_char (quote c : ascii) : string :=
  let n := Str.code c in
  if (Ascii.eqb c quote) || (n =? 92) then String "\" (String c EmptyString)
  else if n =? 9 then "\t"
  else if n =? 10 then "\n"
  else if n =? 13 then "\r"
  else if printable c then String c EmptyString
  else String "\" (String "x" (String (hex_digit (n / 16))
                                 (String (hex_digit (n mod 16)) EmptyString))).

Fixpoint escape (quote : ascii) (s : string) : string :=
  match s with
  | EmptyString => EmptyString
  | String c s' => escape_char quote c ++ escape quote s'
  end.

Definition has_char (c : ascii) (s : string) : bool :=
  Str.contains (String c EmptyString) s.

Definition dquote : ascii := ascii_of_nat 34.

(** [repr] of a [str]. *)
Definition of_str (s : string) : string :=
  let quote := if has_char "'" s && negb (has_char dquote s)
               then dquote else "'"%char in
  String quote (escape quote s ++ String quote EmptyString).

End Repr.

(** All the values of [l], or [None] when one of them is [None]. *)
Fixpoint all_some {A} (l : list (option A)) : option (list A) :=
  match l with
  | [] => Some []
  | o :: l' =>
      match o, all_some l' with
      | Some a, Some l'' => Some (a :: l'')
      | _, _ => None
      end
  end.

(** [repr(v)]; [None] stands for the ValueError of an integer that is
    too long to be written. *)
Fixpoint py_repr (v : value) : option string :=
  match v with
  | VNone => Some "None"
  | VBool true => Some "True"
  | VBool false => Some "False"
  | VInt z => Str.of_Z z
  | VStr s => Some (Repr.of_str s)
  | VList l =>
      match all_some (map py_repr l) with
      | Some parts => Some ("[" ++ Str.join ", " parts ++ "]")
      | None => None
      end
  end.

(** [str(v)], which is also what an f-string field [{v}] renders. *)
Definition py_str (v : value) : option string :=
  match v with
  | VStr s => Some s
  | _ => py_repr v
  end.

(** ** Parsing integers: [int(string)] in base 10

    Optional white space, an optional sign, then decimal digits that
    single underscores may separate; more than [sys.int_max_str_digits]
    digits, leading zeros counted, are refused. *)

Module IntParse.

(** The digits that follow a digit already read: more digits, each
    optionally preceded by a single underscore.  [acc] is the value and
    [n] the number of the digits read so far; the number of digits is
    checked against the limit when the scan ends. *)
Fixpoint digits (s : string) (acc : Z) (n : Z) : option Z :=
  match s with
  | EmptyString => if Str.int_max_str_digits <? n then None else Some acc
  | String c rest =>
      if Str.is_digit c
      then digits rest (10 * acc + Str.digit_value c) (n + 1)
      else if Ascii.eqb c "_" then
        match rest with
        | String d rest' =>
            if Str.is_digit d
            then digits rest' (10 * acc + Str.digit_value d) (n + 1)
            else None
        | EmptyString => None
        end
      else None
  end.

Definition unsigned (s : string) : option Z :=
  match s with
  | String c rest =>
      if Str.is_digit c then digits rest (Str.digit_value c) 1 else None
  | EmptyString => None
  end.

Definition signed (s : string) : option Z :=
  match s with
  | String "-" rest => option_map Z.opp (unsigned rest)
  | String "+" rest => unsigned rest
  | _ => unsigned s
  end.

(** The white space [int] ignores around the number: the ASCII white
    space of C, and the white space above 127; the separators 28..31,
    which [str.strip] removes, are not among it. *)
Definition is_space (c : ascii) : bool :=
  let n := Str.code c in
  ((9 <=? n) && (n <=? 13)) || (n =? 32) || (n =? 133) || (n =? 160).

(** [int(s)] for a [str]: [None] stands for [ValueError]. *)
Definition parse (s : string) : option Z :=
  signed (Str.strip_by is_space s).

End IntParse.

(** ** Exceptions *)

Inductive ValidationError : Type :=
| Empty
| NotANumber (value : string)
| NotInRange (min max : Z)
| NotAnOption (options : value).

(** [__str__] of the validation errors; [None] stands for the
    ValueError of an integer that is too long to be written. *)
Definition ValidationError_str (e : ValidationError) : option string :=
  match e with
  | Empty => Some "Empty"
  | NotANumber v => Some ("'" ++ v ++ "' is not a number")
  | NotInRange lo hi =>
      match Str.of_Z lo, Str.of_Z hi with
      | Some a, Some b =>
          Some ("Please provide a value between " ++ a ++ " and " ++ b)
      | _, _ => None
      end
  | NotAnOption o =>
      match py_str o with
      | Some s => Some ("Please select one of " ++ s)
      | None => None
      end
  end.

Inductive exn : Type :=
| Validation (e : ValidationError)
| Exit
| AssertionError
| TypeError
| ValueError
| KeyError
| IndexError
| EOFError.

Inductive outcome (A : Type) : Type :=
| Ok (a : A)
| Raise (e : exn).

Arguments Ok {A} a.
Arguments Raise {A} e.

(** ** Requirements *)

(** A [dict] with [str] keys, in insertion order. *)
Definition dict := list (string * value).

Definition keys (d : dict) : list string := map fst d.

Fixpoint dict_get (d : dict) (k : string) : option value :=
  match d with
  | [] => None
  | (k', v) :: d' => if String.eqb k' k then Some v else dict_get d' k
  end.

(** A dict has each key once. *)
Definition dict_wf (d : dict) : Prop := NoDup (keys d).

Inductive requirement : Type :=
| Requirement
| Chain (_requirements : list requirement)
| NotEmpty
| Number
| Between (_min _max : Z)
| Choice (_options_dict : dict)
| Menu (_options : list value).

(** ** Events and the computation monad *)

Inductive event : Type :=
| EPrint (text : string) (end_ : string)
| EInput (prompt : string)
| ECall (r : requirement) (v : value).

Definition trace := list event.

(** A computation reads the trace so far and returns an outcome and the
    extended trace. *)
Definition M (A : Type) : Type := trace -> outcome A * trace.

Definition ret {A} (a : A) : M A := fun t => (Ok a, t).

Definition raise {A} (e : exn) : M A := fun t => (Raise e, t).

Definition bind {A B} (m : M A) (f : A -> M B) : M B :=
  fun t => match m t with
           | (Ok a, t') => f a t'
           | (Raise e, t') => (Raise e, t')
           end.

Definition emit (ev : event) : M unit := fun t => (Ok tt, (t ++ [ev])%list).

(** The value of a conversion to a string, or its ValueError. *)
Definition checked {A} (o : option A) : M A :=
  match o with
  | Some a => ret a
  | None => raise ValueError
  end.

(** [try: m except ValidationError as e: h e] *)
Definition try_except {A} (m : M A) (h : ValidationError -> M A) : M A :=
  fun t => match m t with
           | (Raise (Validation e), t') => h e t'
           | r => r
           end.

Notation "x <- m ;; k" := (bind m (fun x => k))
  (at level 61, m at next level, right associativity).
Notation "m ;;; k" := (bind m (fun _ => k))
  (at level 61, right associativity).

(** ** The requirement classes *)

Definition nonempty (s : string) : bool := negb (Str.is_empty s).

(** [enumerate(l, start)] *)
Fixpoint enumerate {A} (start : Z) (l : list A) : list (Z * A) :=
  match l with
  | [] => []
  | x :: l' => (start, x) :: enumerate (start + 1) l'
  end.

(** [requirement.hint()]; [None] stands for the ValueError of a bound
    that is too long to be written.  The list comprehension of
    [Chain.hint] keeps, in order, the hints that are truthy. *)
Fixpoint hint (self : requirement) : option string :=
  match self with
  | Chain rs =>
      option_map (Str.join ", ")
        ((fix comprehension (rs : list requirement)
            : option (list string) :=
            match rs with
            | [] => Some []
            | r :: rs' =>
                match hint r with
                | None => None
                | Some h =>
                    match comprehension rs' with
                    | None => None
                    | Some hs => Some (if nonempty h then h :: hs else hs)
                    end
                end
            end) rs)
  | Between lo hi =>
      if lo =? hi then Str.of_Z lo
      else match Str.of_Z lo, Str.of_Z hi with
           | Some a, Some b => Some (a ++ " - " ++ b)
           | _, _ => None
           end
  | Choice d => Some (Str.join "/" (keys d))
  | Requirement | NotEmpty | Number | Menu _ => Some ""
  end.

(** One line of [Menu.__str__]: the f-string of an index and an item. *)
Definition Menu_line (iv : Z * value) : option string :=
  match Str.of_Z (fst iv), py_str (snd iv) with
  | Some i, Some s => Some (i ++ ". " ++ s)
  | _, _ => None
  end.

(** [requirement.__str__()]; [None] stands for the ValueError of an
    integer that is too long to be written. *)
Fixpoint describe (self : requirement) : option string :=
  match self with
  | Chain rs =>
      option_map (Str.join Str.LF)
        ((fix comprehension (rs : list requirement)
            : option (list string) :=
            match rs with
            | [] => Some []
            | r :: rs' =>
                match describe r with
                | None => None
                | Some d =>
                    match comprehension rs' with
                    | None => None
                    | Some ds => Some (if nonempty d then d :: ds else ds)
                    end
                end
            end) rs)
  | Menu options =>
      option_map (Str.join Str.LF)
        (all_some (map Menu_line (enumerate 1 options)))
  | Requirement | NotEmpty | Number | Between _ _ | Choice _ => Some ""
  end.

(** [int(v)] *)
Definition py_int (v : value) : M value :=
  match v with
  | VStr s =>
      match IntParse.parse s with
      | Some z => ret (VInt z)
      | None => raise (Validation (NotANumber s))
      end
  | VInt z => ret (VInt z)
  | VBool b => ret (VInt (Z.b2z b))
  | VNone | VList _ => raise TypeError
  end.

(** [value in d.keys()]; [None] when [value] is unhashable. *)
Definition in_keys (v : value) (d : dict) : option bool :=
  match v with
  | VList _ => None
  | VStr s => Some (existsb (String.eqb s) (keys d))
  | VNone | VBool _ | VInt _ => Some false
  end.

(** [d[value]] *)
Definition subscript_dict (d : dict) (v : value) : M value :=
  match v with
  | VStr s => match dict_get d s with
              | Some x => ret x
              | None => raise KeyError
              end
  | VList _ => raise TypeError
  | VNone | VBool _ | VInt _ => raise KeyError
  end.

(** [l[i]] for a non-negative index. *)
Definition subscript_list (l : list value) (i : Z) : M value :=
  match nth_error l (Z.to_nat i) with
  | Some x => ret x
  | None => raise IndexError
  end.

(** [requirement.meet(value)].  Every call is recorded in the trace, the
    requirement and its argument, before the body runs.  The [assert] of
    [Menu.meet] is executed, as it is unless the interpreter runs with
    optimisation. *)
Fixpoint meet (self : requirement) (v : value) : M value :=
  emit (ECall self v) ;;;
  match self with
  | Requirement => ret v
  | Chain rs =>
      (fix loop (rs : list requirement) (v : value) : M value :=
         match rs with
         | [] => ret v
         | r :: rs' => v' <- meet r v ;; loop rs' v'
         end) rs v
  | NotEmpty =>
      if negb (truthy v) then raise (Validation Empty) else ret v
  | Number => py_int v
  | Between lo hi =>
      match as_int v with
      | None => raise TypeError
      | Some z =>
          if negb ((lo <=? z) && (z <=? hi))
          then raise (Validation (NotInRange lo hi))
          else ret v
      end
  | Choice d =>
      match in_keys v d with
      | None => raise TypeError
      | Some false =>
          h <- checked (hint self) ;;
          raise (Validation (NotAnOption (VStr h)))
      | Some true => subscript_dict d v
      end
  | Menu options =>
      match as_int v with
      | None => raise TypeError
      | Some z =>
          if (1 <=? z) && (z <=? Z.of_nat (List.length options))
          then subscript_list options (z - 1)
          else raise AssertionError
      end
  end.

(** The body of the [for] loop of [Chain.meet]. *)
Fixpoint meet_all (rs : list requirement) (v : value) : M value :=
  match rs with
  | [] => ret v
  | r :: rs' => v' <- meet r v ;; meet_all rs' v'
  end.

(** ** The prompt *)

Record Prompt : Type := { _character : string }.

Definition default_prompt : Prompt := {| _character := "> " |}.

(** Keywords to cancel execution. *)
Definition EXIT : list string := ["exit"; "quit"].

Definition _print (text : string) (end_ : string) : M unit :=
  emit (EPrint text end_).

Definition should_exit (s : string) : bool :=
  existsb (fun command => Str.contains command (Str.lower s)) EXIT.

Definition _test_exit (s : string) : M unit :=
  if should_exit s then raise Exit else ret tt.

Definition _print_hint (r : requirement) : M unit :=
  h <- checked (hint r) ;;
  if negb (nonempty h) then ret tt
  else _print ("(" ++ h ++ ")") " ".

Definition _print_requirement (r : requirement) : M unit :=
  display <- checked (describe r) ;;
  if negb (nonempty display) then ret tt
  else _print display Str.LF.

(** The [while True] loop of [_prompt], reading from a script of lines;
    the reader raises [EOFError] when the script is exhausted. *)
Fixpoint _prompt_loop (self : Prompt) (r : requirement)
    (lines : list string) : M value :=
  _print_hint r ;;;
  emit (EInput (_character self)) ;;;
  match lines with
  | [] => raise EOFError
  | line :: rest =>
      let input_ := Str.strip line in
      _test_exit input_ ;;;
      res <- try_except (x <- meet r (VStr input_) ;; ret (Some x))
                        (fun e =>
                           message <- checked (ValidationError_str e) ;;
                           _print message Str.LF ;;;
                           ret None) ;;
      match res with
      | Some x => ret x
      | None => _prompt_loop self r rest
      end
  end.

Definition _prompt (self : Prompt) (r : requirement)
    (lines : list string) : M value :=
  _print_requirement r ;;; _prompt_loop self r lines.

Definition between (self : Prompt) (lo hi : Z) : list string -> M value :=
  _prompt self (Chain [Number; Between lo hi]).

Definition choose (self : Prompt) (options : dict) : list string -> M value :=
  _prompt self (Choice options).

Definition menu (self : Prompt) (options : list value)
  : list string -> M value :=
  _prompt self
    (Chain [Number; Between 1 (Z.of_nat (List.length options)); Menu options]).

Definition name (self : Prompt) : list string -> M value :=
  _prompt self NotEmpty.

Definition number (self : Prompt) : list string -> M value :=
  _prompt self Number.

(** ** Definitions used to state the properties *)

(** The nested application [rn-1.meet(... r1.meet(r0.meet(raw)))], read
    off the requirements listed innermost last. *)
Fixpoint nested_meet (rs_rev : list requirement) (raw : value) : M value :=
  match rs_rev with
  | [] => ret raw
  | r :: inner => x <- nested_meet inner raw ;; meet r x
  end.

Definition is_call (ev : event) : Prop :=
  match ev with ECall _ _ => True | _ => False end.

(** [m] has a fixed outcome and appends a fixed list of events, all in
    [P], whatever the trace it starts from. *)
Definition logs_only {A} (P : event -> Prop) (m : M A) : Prop :=
  exists o evs, Forall P evs /\ forall t, m t = (o, (t ++ evs)%list).

(** What [_print_hint] writes, when the hint can be written. *)
Definition hint_events (r : requirement) : list event :=
  match hint r with
  | Some h => if nonempty h then [EPrint ("(" ++ h ++ ")") " "] else []
  | None => []
  end.

(** What [_print_requirement] writes, when the display string can be
    written. *)
Definition describe_events (r : requirement) : list event :=
  match describe r with
  | Some d => if nonempty d then [EPrint d Str.LF] else []
  | None => []
  end.

(** The display string and the hint of [r] can both be written: no
    integer in them is too long for [str]. *)
Definition displays (r : requirement) : bool :=
  match describe r, hint r with
  | Some _, Some _ => true
  | _, _ => false
  end.

(** A line the loop answers with a validation message and a new prompt. *)
Definition rejected (r : requirement) (line : string) : Prop :=
  should_exit (Str.strip line) = false /\
  exists e, fst (meet r (VStr (Str.strip line)) []) = Raise (Validation e).

(** A call of [Menu.meet] within its precondition. *)
Definition menu_call_ok (ev : event) : Prop :=
  match ev with
  | ECall (Menu options) v =>
      exists z, v = VInt z /\ 1 <= z <= Z.of_nat (List.length options)
  | _ => True
  end.

(** The value of the decimal digits [d] read after the value [acc]. *)
Fixpoint uint_value (d : Decimal.uint) (acc : Z) : Z :=
  match d with
  | Decimal.Nil => acc
  | Decimal.D0 d' => uint_value d' (10 * acc + 0)
  | Decimal.D1 d' => uint_value d' (10 * acc + 1)
  | Decimal.D2 d' => uint_value d' (10 * acc + 2)
  | Decimal.D3 d' => uint_value d' (10 * acc + 3)
  | Decimal.D4 d' => uint_value d' (10 * acc + 4)
  | Decimal.D5 d' => uint_value d' (10 * acc + 5)
  | Decimal.D6 d' => uint_value d' (10 * acc + 6)
  | Decimal.D7 d' => uint_value d' (10 * acc + 7)
  | Decimal.D8 d' => uint_value d' (10 * acc + 8)
  | Decimal.D9 d' => uint_value d' (10 * acc + 9)
  end.

(** No character of [s] satisfies [p]. *)
Fixpoint none_of (p : ascii -> bool) (s : string) : bool :=
  match s with
  | EmptyString => true
  | String c s' => negb (p c) && none_of p s'
  end.

(** A line the loop answers by returning [v]. *)
Definition accepted (r : requirement) (line : string) (v : value) : Prop :=
  should_exit (Str.strip line) = false /\
  fst (meet r (VStr (Str.strip line)) []) = Ok v.

Definition is_read (ev : event) : bool :=
  match ev with EInput _ => true | _ => false end.

(** A [print] that ends its line: the display string of the requirement
    and the validation messages, not the hint. *)
Definition is_line_print (ev : event) : bool :=
  match ev with EPrint _ e => String.eqb e Str.LF | _ => false end.

(** The ways a prompt ends that are no defect: a value, a cancellation,
    the end of the input. *)
Definition ends_cleanly (o : outcome value) : Prop :=
  match o with
  | Ok _ | Raise Exit | Raise EOFError => True
  | Raise _ => False
  end.

(** On every string [meet] returns a value or raises a ValidationError. *)
Definition validates_strings (r : requirement) : Prop :=
  forall s, match fst (meet r (VStr s) []) with
            | Ok _ | Raise (Validation _) => True
            | Raise _ => False
            end.



(** The message of a validation error, when it can be written. *)
Definition message_of (e : ValidationError) : string :=
  match ValidationError_str e with
  | Some message => message
  | None => EmptyString
  end.

(** The [print] of a hint, which ends with a space. *)
Definition is_hint_print (ev : event) : bool :=
  match ev with EPrint _ e => String.eqb e " " | _ => false end.

(** * Properties *)

Local Open Scope list_scope.
(** ** Induction on requirements, through the lists of chains *)

Section RequirementInd.

Variable P : requirement -> Prop.
Hypothesis HRequirement : P Requirement.
Hypothesis HChain : forall rs, Forall P rs -> P (Chain rs).
Hypothesis HNotEmpty : P NotEmpty.
Hypothesis HNumber : P Number.
Hypothesis HBetween : forall lo hi, P (Between lo hi).
Hypothesis HChoice : forall d, P (Choice d).
Hypothesis HMenu : forall options, P (Menu options).

Fixpoint requirement_nested_ind (r : requirement) : P r :=
  match r with
  | Requirement => HRequirement
  | Chain rs =>
      HChain rs
        ((fix all (l : list requirement) : Forall P l :=
            match l with
            | [] => Forall_nil P
            | x :: l' => Forall_cons x (requirement_nested_ind x) (all l')
            end) rs)
  | NotEmpty => HNotEmpty
  | Number => HNumber
  | Between lo hi => HBetween lo hi
  | Choice d => HChoice d
  | Menu options => HMenu options
  end.

End RequirementInd.
(** ** Computations that only append to the trace *)

Lemma logs_only_ret {A} P (a : A) : logs_only P (ret a).
Proof.
  exists (Ok a), []. split; [constructor|].
  intros t. unfold ret. now rewrite app_nil_r.
Qed.

Lemma logs_only_raise {A} P e : logs_only P (@raise A e).
Proof.
  exists (Raise e), []. split; [constructor|].
  intros t. unfold raise. now rewrite app_nil_r.
Qed.

Lemma logs_only_emit (P : event -> Prop) ev : P ev -> logs_only P (emit ev).
Proof.
  intros H. exists (Ok tt), [ev]. split; [now repeat constructor|].
  reflexivity.
Qed.

Lemma logs_only_bind {A B} P (m : M A) (f : A -> M B) :
  logs_only P m -> (forall a, logs_only P (f a)) -> logs_only P (bind m f).
Proof.
  intros (o & evs & Hevs & Hm) Hf. destruct o as [a|e].
  - destruct (Hf a) as (o' & evs' & Hevs' & Hfa).
    exists o', (evs ++ evs'). split.
    + apply Forall_app; now split.
    + intros t. unfold bind. rewrite Hm, Hfa. now rewrite app_assoc.
  - exists (Raise e), evs. split; [assumption|].
    intros t. unfold bind. now rewrite Hm.
Qed.

Lemma logs_only_try_except {A} P (m : M A) h :
  logs_only P m -> (forall e, logs_only P (h e)) ->
  logs_only P (try_except m h).
Proof.
  intros (o & evs & Hevs & Hm) Hh.
  destruct o as [a|[e| | | | | | |]];
    try (eexists _, evs; split; [assumption|];
         intros t; unfold try_except; now rewrite Hm).
  destruct (Hh e) as (o' & evs' & Hevs' & Hhe).
  exists o', (evs ++ evs'). split.
  - apply Forall_app; now split.
  - intros t. unfold try_except. rewrite Hm, Hhe. now rewrite app_assoc.
Qed.

Lemma logs_only_checked {A} P (o : option A) : logs_only P (checked o).
Proof. destruct o; [apply logs_only_ret|apply logs_only_raise]. Qed.

Lemma logs_only_weaken {A} (P Q : event -> Prop) (m : M A) :
  (forall ev, P ev -> Q ev) -> logs_only P m -> logs_only Q m.
Proof.
  intros HPQ (o & evs & Hevs & Hm). exists o, evs. split; [|assumption].
  eapply Forall_impl; eauto.
Qed.

(** The outcome does not depend on the trace the computation starts from. *)
Lemma logs_only_fst {A} P (m : M A) :
  logs_only P m -> forall t1 t2, fst (m t1) = fst (m t2).
Proof.
  intros (o & evs & _ & Hm) t1 t2. now rewrite !Hm.
Qed.

Lemma logs_only_frame {A} P (m : M A) :
  logs_only P m -> forall t, m t = (fst (m []), t ++ snd (m [])).
Proof.
  intros (o & evs & _ & Hm) t. now rewrite (Hm t), (Hm []).
Qed.

(** ** Unfolding [meet] *)

Lemma meet_Chain rs v t :
  meet (Chain rs) v t = (emit (ECall (Chain rs) v) ;;; meet_all rs v) t.
Proof.
  cbn [meet]. unfold bind at 1 3. destruct (emit _ t) as [[[]|e] t0]; [|reflexivity].
  revert v t0. induction rs as [|r rs IH]; intros v t0; [reflexivity|].
  cbn [meet_all]. unfold bind at 1 3.
  destruct (meet r v t0) as [[x|e] t1]; [apply IH | reflexivity].
Qed.

Lemma meet_all_app pre post v t :
  meet_all (pre ++ post) v t = (x <- meet_all pre v ;; meet_all post x) t.
Proof.
  revert v t. induction pre as [|r pre IH]; intros v t; [reflexivity|].
  cbn [app meet_all]. unfold bind.
  destruct (meet r v t) as [[x|e] t1]; [|reflexivity].
  rewrite IH. reflexivity.
Qed.

Lemma logs_only_py_int v : logs_only is_call (py_int v).
Proof.
  destruct v as [|b|z|s|l]; cbn [py_int];
    try (destruct (IntParse.parse s));
    auto using @logs_only_ret, @logs_only_raise.
Qed.

Lemma logs_only_meet_all rs :
  Forall (fun r => forall v, logs_only is_call (meet r v)) rs ->
  forall v, logs_only is_call (meet_all rs v).
Proof.
  induction 1 as [|r rs Hr _ IH]; intros v; cbn [meet_all].
  - apply logs_only_ret.
  - apply logs_only_bind; auto.
Qed.

Lemma logs_only_same {A} P (m m' : M A) :
  (forall t, m t = m' t) -> logs_only P m' -> logs_only P m.
Proof.
  intros E (o & evs & Hevs & Hm). exists o, evs. split; [assumption|].
  intros t. now rewrite E.
Qed.

(** [meet] performs no input or output and never looks at the trace: it
    has one outcome, and records only its own calls. *)
Lemma logs_only_meet r : forall v, logs_only is_call (meet r v).
Proof.
  induction r as [|rs IH| | |lo hi|d|options] using requirement_nested_ind;
    intros v.
  - cbn [meet]. apply logs_only_bind; [now apply logs_only_emit|intros _].
    apply logs_only_ret.
  - eapply logs_only_same; [intros t; apply meet_Chain|].
    apply logs_only_bind; [now apply logs_only_emit|intros _].
    now apply logs_only_meet_all.
  - cbn [meet]. apply logs_only_bind; [now apply logs_only_emit|intros _].
    destruct (negb (truthy v)); auto using @logs_only_ret, @logs_only_raise.
  - cbn [meet]. apply logs_only_bind; [now apply logs_only_emit|intros _].
    apply logs_only_py_int.
  - cbn [meet]. apply logs_only_bind; [now apply logs_only_emit|intros _].
    destruct (as_int v); [|apply logs_only_raise].
    destruct (negb _); auto using @logs_only_ret, @logs_only_raise.
  - cbn [meet]. apply logs_only_bind; [now apply logs_only_emit|intros _].
    destruct (in_keys v d) as [[|]|]; try apply logs_only_raise.
    unfold subscript_dict. destruct v; try apply logs_only_raise.
    destruct (dict_get d s); auto using @logs_only_ret, @logs_only_raise.
  - cbn [meet]. apply logs_only_bind; [now apply logs_only_emit|intros _].
    destruct (as_int v); [|apply logs_only_raise].
    destruct (_ && _); [|apply logs_only_raise].
    unfold subscript_list. destruct (nth_error _ _);
      auto using @logs_only_ret, @logs_only_raise.
Qed.

(** ** Chains *)

Lemma bind_ret_r {A} (m : M A) t : (x <- m ;; ret x) t = m t.
Proof. unfold bind, ret. now destruct (m t) as [[a|e] t']. Qed.

Lemma meet_all_nested rs raw t :
  meet_all rs raw t = nested_meet (rev rs) raw t.
Proof.
  revert t. induction rs as [|r rs IH] using rev_ind; intros t; [reflexivity|].
  rewrite rev_app_distr, meet_all_app. cbn [rev app nested_meet meet_all].
  unfold bind. rewrite IH.
  destruct (nested_meet (rev rs) raw t) as [[x|e] t1]; [|reflexivity].
  now destruct (meet r x t1) as [[y|e] t2].
Qed.

Lemma comprehension_filter_map (f : requirement -> option string) rs :
  (fix comprehension (rs : list requirement) : option (list string) :=
     match rs with
     | [] => Some []
     | r :: rs' =>
         match f r with
         | None => None
         | Some h =>
             match comprehension rs' with
             | None => None
             | Some hs => Some (if nonempty h then h :: hs else hs)
             end
         end
     end) rs
  = option_map (filter nonempty) (all_some (map f rs)).
Proof.
  induction rs as [|r rs IH]; [reflexivity|].
  cbn [map all_some]. rewrite IH. destruct (f r) as [h|]; [|reflexivity].
  destruct (all_some (map f rs)) as [hs|]; [|reflexivity].
  cbn [option_map filter]. now destruct (nonempty h).
Qed.

Lemma option_map_compose {A B C} (f : A -> B) (g : B -> C) o :
  option_map g (option_map f o) = option_map (fun a => g (f a)) o.
Proof. now destruct o. Qed.

(** C1.  [Chain.meet] is the left-to-right nested application of its
    requirements; a failing requirement ends the chain with its own
    exception, at the trace it failed with, so that no later requirement
    is called.  The chain Number, Between(1,3), Menu(a,b,c) maps "2" to
    "b" and fails on "5" with NotInRange(1,3) before Menu is called. *)
Theorem Chain_meet_nested_short_circuit :
  (forall rs raw t,
      meet (Chain rs) raw t
      = nested_meet (rev rs) raw (t ++ [ECall (Chain rs) raw]))
  /\ (forall pre ri post raw x e t t1 t2,
         meet_all pre raw (t ++ [ECall (Chain (pre ++ ri :: post)) raw])
         = (Ok x, t1) ->
         meet ri x t1 = (Raise e, t2) ->
         meet (Chain (pre ++ ri :: post)) raw t = (Raise e, t2))
  /\ (let menu := Menu [VStr "a"; VStr "b"; VStr "c"] in
      let chain := Chain [Number; Between 1 3; menu] in
      meet chain (VStr "2") []
      = (Ok (VStr "b"),
         [ECall chain (VStr "2"); ECall Number (VStr "2");
          ECall (Between 1 3) (VInt 2); ECall menu (VInt 2)])
      /\ meet chain (VStr "5") []
         = (Raise (Validation (NotInRange 1 3)),
            [ECall chain (VStr "5"); ECall Number (VStr "5");
             ECall (Between 1 3) (VInt 5)])).
Proof.
  split; [|split].
  - intros rs raw t. rewrite meet_Chain. unfold bind, emit.
    apply meet_all_nested.
  - intros pre ri post raw x e t t1 t2 Hpre Hri.
    rewrite meet_Chain. unfold bind at 1. unfold emit.
    rewrite meet_all_app. unfold bind at 1. rewrite Hpre.
    cbn [meet_all]. unfold bind at 1. now rewrite Hri.
  - split; vm_compute; reflexivity.
Qed.

Lemma Chain_meet_nested_short_circuit_witness :
  meet (Chain ([Number] ++ Between 1 3 :: [Menu [VStr "a"]])) (VStr "5") []
  = (Raise (Validation (NotInRange 1 3)),
     [ECall (Chain [Number; Between 1 3; Menu [VStr "a"]]) (VStr "5");
      ECall Number (VStr "5"); ECall (Between 1 3) (VInt 5)]).
Proof.
  apply (proj1 (proj2 Chain_meet_nested_short_circuit)
           [Number] (Between 1 3) [Menu [VStr "a"]] (VStr "5") (VInt 5)
           (Validation (NotInRange 1 3)) []
           [ECall (Chain [Number; Between 1 3; Menu [VStr "a"]]) (VStr "5");
            ECall Number (VStr "5")]).
  - vm_compute. reflexivity.
  - vm_compute. reflexivity.
Defined.

(** C8.  The hint of a chain joins the non-empty hints of its
    requirements with ", ", and its display string joins their non-empty
    display strings with a line feed, both in the order of the chain.
    (It can be written when those of all its requirements can.) *)
Theorem Chain_hint_describe_join :
  forall rs,
    hint (Chain rs)
    = option_map (fun hints => Str.join ", " (filter nonempty hints))
        (all_some (map hint rs))
    /\ describe (Chain rs)
       = option_map (fun ds => Str.join Str.LF (filter nonempty ds))
           (all_some (map describe rs)).
Proof.
  intros rs. split.
  - cbn [hint]. rewrite (comprehension_filter_map hint).
    apply option_map_compose.
  - cbn [describe]. rewrite (comprehension_filter_map describe).
    apply option_map_compose.
Qed.

(** C10.  The empty chain returns every input unchanged, calling nothing
    else, and both its hint and its display string are empty. *)
Theorem Chain_empty_identity :
  (forall raw t,
      meet (Chain []) raw t = (Ok raw, t ++ [ECall (Chain []) raw]))
  /\ hint (Chain []) = Some ""%string
  /\ describe (Chain []) = Some ""%string.
Proof. repeat split. Qed.

(** C9.  For a fixed requirement and input, the outcome of [meet] is the
    same from every trace, so also when it is called a second time after
    the first call; all a call leaves behind is the record of the calls
    made, the same each time. *)
Theorem meet_idempotent :
  forall r v,
    (forall t1 t2, fst (meet r v t1) = fst (meet r v t2))
    /\ (forall t, fst (meet r v (snd (meet r v t))) = fst (meet r v t))
    /\ (exists calls, Forall is_call calls
                      /\ forall t, snd (meet r v t) = t ++ calls).
Proof.
  intros r v. pose proof (logs_only_meet r v) as H. repeat split.
  - eapply logs_only_fst; eauto.
  - intros t. eapply logs_only_fst; eauto.
  - destruct H as (o & calls & Hc & Hm). exists calls. split; [assumption|].
    intros t. now rewrite Hm.
Qed.

(** ** The single requirements *)

(** C6.  [Between(min, max).meet] returns an integer of the closed
    interval unchanged and fails with NotInRange(min, max) on an integer
    below [min] or above [max]; Between(1,5) accepts 1, 3 and 5 and
    rejects 0. *)
Theorem Between_meet_closed_interval :
  (forall lo hi v t,
      (lo <= v <= hi ->
       meet (Between lo hi) (VInt v) t
       = (Ok (VInt v), t ++ [ECall (Between lo hi) (VInt v)]))
      /\ (v < lo \/ v > hi ->
          meet (Between lo hi) (VInt v) t
          = (Raise (Validation (NotInRange lo hi)),
             t ++ [ECall (Between lo hi) (VInt v)])))
  /\ fst (meet (Between 1 5) (VInt 1) []) = Ok (VInt 1)
  /\ fst (meet (Between 1 5) (VInt 3) []) = Ok (VInt 3)
  /\ fst (meet (Between 1 5) (VInt 5) []) = Ok (VInt 5)
  /\ fst (meet (Between 1 5) (VInt 0) [])
     = Raise (Validation (NotInRange 1 5)).
Proof.
  split; [|repeat split].
  intros lo hi v t. cbn [meet as_int]. unfold bind, emit, ret, raise.
  split; intros H.
  - replace ((lo <=? v) && (v <=? hi)) with true; [reflexivity|].
    symmetry. apply andb_true_iff. split; apply Z.leb_le; lia.
  - replace ((lo <=? v) && (v <=? hi)) with false; [reflexivity|].
    symmetry. apply andb_false_iff.
    destruct H; [left|right]; apply Z.leb_gt; lia.
Qed.

Lemma Between_meet_closed_interval_witness :
  meet (Between 1 5) (VInt 5) [] = (Ok (VInt 5), [ECall (Between 1 5) (VInt 5)])
  /\ meet (Between 1 5) (VInt 6) []
     = (Raise (Validation (NotInRange 1 5)), [ECall (Between 1 5) (VInt 6)]).
Proof.
  split.
  - apply (proj1 (proj1 Between_meet_closed_interval 1 5 5 [])). lia.
  - apply (proj2 (proj1 Between_meet_closed_interval 1 5 6 [])). lia.
Defined.

Lemma existsb_eqb_In label (l : list string) :
  existsb (String.eqb label) l = true <-> In label l.
Proof.
  rewrite existsb_exists. split.
  - intros (x & Hx & E). apply String.eqb_eq in E. now subst.
  - intros H. exists label. split; [assumption|apply String.eqb_refl].
Qed.

Lemma dict_get_In d label :
  In label (keys d) ->
  exists x, dict_get d label = Some x /\ In (label, x) d.
Proof.
  induction d as [|[k x] d IH]; cbn [keys map fst In dict_get]; [easy|].
  intros H. destruct (String.eqb k label) eqn:E.
  - apply String.eqb_eq in E. subst. exists x. auto.
  - destruct H as [H|H]; [subst; now rewrite String.eqb_refl in E|].
    destruct (IH H) as (y & Hy & Hin). exists y. auto.
Qed.

(** C3, as the code has it.  [Choice(options).meet(label)] returns the
    value of [label] when it is a key; otherwise it fails with
    NotAnOption carrying the hint of the choice, the one string of the
    labels joined with "/" ("yes/no"), not a list of them. *)
Theorem Choice_meet_lookup :
  (forall d label t,
      (In label (keys d) ->
       exists x, dict_get d label = Some x /\ In (label, x) d
                 /\ meet (Choice d) (VStr label) t
                    = (Ok x, t ++ [ECall (Choice d) (VStr label)]))
      /\ (~ In label (keys d) ->
          meet (Choice d) (VStr label) t
          = (Raise (Validation
                      (NotAnOption (VStr (Str.join "/" (keys d))))),
             t ++ [ECall (Choice d) (VStr label)])))
  /\ (let options := [("yes"%string, VBool true); ("no"%string, VBool false)] in
      fst (meet (Choice options) (VStr "yes") []) = Ok (VBool true)
      /\ fst (meet (Choice options) (VStr "maybe") [])
         = Raise (Validation (NotAnOption (VStr "yes/no")))).
Proof.
  split; [|split; reflexivity].
  intros d label t. cbn [meet in_keys hint]. unfold bind, emit. split; intros H.
  - destruct (dict_get_In d label H) as (x & Hx & Hin).
    exists x. repeat split; try assumption.
    apply existsb_eqb_In in H. rewrite H.
    cbn [subscript_dict]. now rewrite Hx.
  - destruct (existsb (String.eqb label) (keys d)) eqn:E; [|reflexivity].
    apply existsb_eqb_In in E. contradiction.
Qed.

Lemma Choice_meet_lookup_witness :
  (exists x, dict_get [("yes"%string, VBool true)] "yes" = Some x
             /\ In ("yes"%string, x) [("yes"%string, VBool true)]
             /\ meet (Choice [("yes"%string, VBool true)]) (VStr "yes") []
                = (Ok x, [ECall (Choice [("yes"%string, VBool true)])
                            (VStr "yes")]))
  /\ meet (Choice [("yes"%string, VBool true)]) (VStr "maybe") []
     = (Raise (Validation (NotAnOption (VStr "yes"))),
        [ECall (Choice [("yes"%string, VBool true)]) (VStr "maybe")]).
Proof.
  split.
  - apply (proj1 (proj1 Choice_meet_lookup
                    [("yes"%string, VBool true)] "yes"%string [])).
    cbn. left. reflexivity.
  - apply (proj2 (proj1 Choice_meet_lookup
                    [("yes"%string, VBool true)] "maybe"%string [])).
    cbn. intros [H|[]]. discriminate H.
Defined.

(** C3 as stated fails: on the label "maybe" the outcome of
    Choice(yes, no) does not carry the list of the labels. *)
Lemma Choice_meet_payload_not_label_list :
  fst (meet (Choice [("yes"%string, VBool true); ("no"%string, VBool false)])
         (VStr "maybe") [])
  <> Raise (Validation (NotAnOption (VList [VStr "yes"; VStr "no"]))).
Proof. vm_compute. discriminate. Qed.

(** ** The prompt loop, one iteration at a time *)

Lemma _print_hint_events r h t :
  hint r = Some h -> _print_hint r t = (Ok tt, t ++ hint_events r).
Proof.
  intros Hh. unfold _print_hint, hint_events, _print, bind, checked.
  rewrite Hh. unfold ret, emit.
  destruct (nonempty h); cbn [negb]; [reflexivity|].
  now rewrite app_nil_r.
Qed.

Lemma _print_hint_unwritable r t :
  hint r = None -> _print_hint r t = (Raise ValueError, t).
Proof. intros Hh. unfold _print_hint, bind, checked. now rewrite Hh. Qed.

Lemma _print_requirement_events r d t :
  describe r = Some d ->
  _print_requirement r t = (Ok tt, t ++ describe_events r).
Proof.
  intros Hd. unfold _print_requirement, describe_events, _print, bind, checked.
  rewrite Hd. unfold ret, emit.
  destruct (nonempty d); cbn [negb]; [reflexivity|].
  now rewrite app_nil_r.
Qed.

Lemma _print_requirement_unwritable r t :
  describe r = None -> _print_requirement r t = (Raise ValueError, t).
Proof.
  intros Hd. unfold _print_requirement, bind, checked. now rewrite Hd.
Qed.

Lemma _prompt_loop_unwritable self r lines t :
  hint r = None -> _prompt_loop self r lines t = (Raise ValueError, t).
Proof.
  intros Hh. destruct lines; cbn [_prompt_loop]; unfold bind at 1;
    now rewrite (_print_hint_unwritable r t Hh).
Qed.

Lemma _prompt_loop_nil self r h t :
  hint r = Some h ->
  _prompt_loop self r [] t
  = (Raise EOFError, t ++ hint_events r ++ [EInput (_character self)]).
Proof.
  intros Hh. cbn [_prompt_loop]. unfold bind.
  rewrite (_print_hint_events r h t Hh).
  unfold emit, raise. now rewrite <- app_assoc.
Qed.

Lemma all_some_Forall {A} (l : list (option A)) l' :
  all_some l = Some l' -> Forall (fun o => exists a, o = Some a) l.
Proof.
  revert l'. induction l as [|o l IH]; intros l'; [constructor|].
  cbn [all_some]. destruct o as [a|]; [|discriminate].
  destruct (all_some l) as [l''|]; [|discriminate].
  intros _. constructor; [now exists a|]. now apply (IH l'').
Qed.

Lemma Chain_hint_parts rs h :
  hint (Chain rs) = Some h -> Forall (fun r => exists h', hint r = Some h') rs.
Proof.
  cbn [hint]. rewrite (comprehension_filter_map hint).
  destruct (all_some (map hint rs)) as [hs|] eqn:E; [|discriminate].
  intros _. apply all_some_Forall in E.
  rewrite Forall_map in E. exact E.
Qed.

Lemma meet_all_message_writable rs :
  Forall (fun r => forall v t e t',
              meet r v t = (Raise (Validation e), t') ->
              exists message, ValidationError_str e = Some message) rs ->
  forall v t e t',
    meet_all rs v t = (Raise (Validation e), t') ->
    exists message, ValidationError_str e = Some message.
Proof.
  induction 1 as [|r rs Hr _ IH]; intros v t e t'; cbn [meet_all].
  - discriminate.
  - unfold bind. destruct (meet r v t) as [[x|e'] t1] eqn:E.
    + apply IH.
    + intros [= -> ->]. eapply Hr; eauto.
Qed.

(** A requirement whose hint can be written raises only validation
    errors whose message can be written. *)
Lemma message_writable r :
  forall h, hint r = Some h ->
  forall v t e t',
    meet r v t = (Raise (Validation e), t') ->
    exists message, ValidationError_str e = Some message.
Proof.
  induction r as [|rs IH| | |lo hi|d|options] using requirement_nested_ind;
    intros h Hh v t e t'.
  - cbn [meet]. unfold bind, emit, ret. discriminate.
  - rewrite meet_Chain. unfold bind at 1. unfold emit.
    apply meet_all_message_writable.
    apply Chain_hint_parts in Hh.
    rewrite Forall_forall in IH, Hh. apply Forall_forall. intros r Hr.
    destruct (Hh r Hr) as (h' & Hh'). exact (IH r Hr h' Hh').
  - cbn [meet]. unfold bind, emit.
    destruct (negb (truthy v)); unfold raise, ret; [|discriminate].
    intros [= <- _]. now eexists.
  - cbn [meet]. unfold bind, emit.
    destruct v as [|b|z|s|l]; cbn [py_int]; unfold raise, ret;
      try discriminate.
    destruct (IntParse.parse s); [discriminate|].
    intros [= <- _]. now eexists.
  - cbn [meet]. unfold bind, emit.
    destruct (as_int v) as [z|]; unfold raise; [|discriminate].
    destruct (negb _); unfold ret; [|discriminate].
    intros [= <- _]. cbn [ValidationError_str]. cbn [hint] in Hh.
    destruct (lo =? hi) eqn:E.
    + apply Z.eqb_eq in E. subst hi. rewrite Hh. now eexists.
    + destruct (Str.of_Z lo), (Str.of_Z hi); try discriminate. now eexists.
  - cbn [meet hint]. unfold bind, emit.
    destruct (in_keys v d) as [[|]|]; unfold raise; try discriminate.
    + unfold subscript_dict. destruct v; unfold raise; try discriminate.
      destruct (dict_get d s); unfold ret, raise; discriminate.
    + cbn [checked]. unfold ret. intros [= <- _]. now eexists.
  - cbn [meet]. unfold bind, emit.
    destruct (as_int v) as [z|]; unfold raise; [|discriminate].
    destruct (_ && _); [|discriminate].
    unfold subscript_list. destruct (nth_error _ _); unfold ret, raise;
      discriminate.
Qed.

Lemma _prompt_loop_cons self r h line rest t :
  hint r = Some h ->
  _prompt_loop self r (line :: rest) t
  = let t0 := t ++ hint_events r ++ [EInput (_character self)] in
    if should_exit (Str.strip line) then (Raise Exit, t0)
    else match meet r (VStr (Str.strip line)) t0 with
         | (Ok x, t1) => (Ok x, t1)
         | (Raise (Validation e), t1) =>
             _prompt_loop self r rest (t1 ++ [EPrint (message_of e) Str.LF])
         | (Raise e, t1) => (Raise e, t1)
         end.
Proof.
  intros Hh. cbn [_prompt_loop]. unfold bind at 1.
  rewrite (_print_hint_events r h t Hh).
  unfold bind at 1. unfold emit at 1. rewrite <- app_assoc.
  cbv zeta. unfold bind at 1. unfold _test_exit.
  destruct (should_exit (Str.strip line)); [reflexivity|].
  unfold ret at 1. unfold bind at 1. unfold try_except, bind at 1.
  destruct (meet r (VStr (Str.strip line)) _) as [[x|e] t1] eqn:E.
  - reflexivity.
  - destruct e; try reflexivity.
    destruct (message_writable r h Hh _ _ _ _ E) as (message & Hm).
    unfold message_of. rewrite Hm. reflexivity.
Qed.

Lemma _prompt_unfold self r d lines t :
  describe r = Some d ->
  _prompt self r lines t = _prompt_loop self r lines (t ++ describe_events r).
Proof.
  intros Hd. unfold _prompt, bind.
  now rewrite (_print_requirement_events r d t Hd).
Qed.

Lemma _prompt_unwritable self r lines t :
  describe r = None -> _prompt self r lines t = (Raise ValueError, t).
Proof.
  intros Hd. unfold _prompt, bind.
  now rewrite (_print_requirement_unwritable r t Hd).
Qed.
(** ** Menu *)

Lemma nth_error_in_range (options : list value) z :
  1 <= z <= Z.of_nat (List.length options) ->
  exists x, nth_error options (Z.to_nat (z - 1)) = Some x.
Proof.
  intros H. destruct (nth_error options (Z.to_nat (z - 1))) as [x|] eqn:E.
  - now exists x.
  - apply nth_error_None in E. lia.
Qed.

Lemma range_test_true lo hi z :
  (lo <=? z) && (z <=? hi) = true <-> lo <= z <= hi.
Proof. rewrite andb_true_iff, !Z.leb_le. tauto. Qed.

(** What the chain of [Prompt.menu] does on a string. *)
Lemma menu_chain_meet options s t :
  let n := Z.of_nat (List.length options) in
  let chain := Chain [Number; Between 1 n; Menu options] in
  meet chain (VStr s) t
  = match IntParse.parse s with
    | None =>
        (Raise (Validation (NotANumber s)),
         t ++ [ECall chain (VStr s); ECall Number (VStr s)])
    | Some z =>
        if (1 <=? z) && (z <=? n) then
          (match nth_error options (Z.to_nat (z - 1)) with
           | Some x => Ok x
           | None => Raise IndexError
           end,
           t ++ [ECall chain (VStr s); ECall Number (VStr s);
                 ECall (Between 1 n) (VInt z); ECall (Menu options) (VInt z)])
        else
          (Raise (Validation (NotInRange 1 n)),
           t ++ [ECall chain (VStr s); ECall Number (VStr s);
                 ECall (Between 1 n) (VInt z)])
    end.
Proof.
  intros n chain. subst chain. cbn [meet py_int]. unfold bind, emit.
  destruct (IntParse.parse s) as [z|]; unfold ret, raise.
  - cbn [as_int]. destruct ((1 <=? z) && (z <=? n)) eqn:E; cbn [negb].
    + cbn [as_int]. fold n. rewrite E. unfold subscript_list.
      rewrite <- !app_assoc. cbn [app].
      destruct (nth_error options (Z.to_nat (z - 1))); reflexivity.
    + rewrite <- !app_assoc. reflexivity.
  - rewrite <- !app_assoc. reflexivity.
Qed.

Lemma menu_chain_calls_ok options s t :
  Forall menu_call_ok t ->
  let chain :=
    Chain [Number; Between 1 (Z.of_nat (List.length options)); Menu options] in
  Forall menu_call_ok (snd (meet chain (VStr s) t))
  /\ (fst (meet chain (VStr s) t) = Raise AssertionError -> False)
  /\ (fst (meet chain (VStr s) t) = Raise IndexError -> False).
Proof.
  intros Ht chain. subst chain. rewrite menu_chain_meet.
  destruct (IntParse.parse s) as [z|]; cbn [fst snd].
  - destruct ((1 <=? z) && (z <=? _)) eqn:E; cbn [fst snd].
    + apply range_test_true in E.
      destruct (nth_error_in_range options z E) as (x & Hx). rewrite Hx.
      repeat split; try discriminate.
      apply Forall_app. split; [assumption|].
      repeat constructor. exists z. auto.
    + repeat split; try discriminate.
      apply Forall_app. split; [assumption|]. repeat constructor.
  - repeat split; try discriminate.
    apply Forall_app. split; [assumption|]. repeat constructor.
Qed.

Lemma hint_events_menu_call_ok r : Forall menu_call_ok (hint_events r).
Proof.
  unfold hint_events. destruct (hint r) as [h|]; [|constructor].
  destruct (nonempty h); now repeat constructor.
Qed.

Lemma describe_events_menu_call_ok r : Forall menu_call_ok (describe_events r).
Proof.
  unfold describe_events. destruct (describe r) as [d|]; [|constructor].
  destruct (nonempty d); now repeat constructor.
Qed.

Lemma menu_loop_calls_ok self options lines :
  forall t,
    Forall menu_call_ok t ->
    let chain :=
      Chain [Number; Between 1 (Z.of_nat (List.length options)); Menu options] in
    Forall menu_call_ok (snd (_prompt_loop self chain lines t))
    /\ (fst (_prompt_loop self chain lines t) = Raise AssertionError -> False).
Proof.
  intros t Ht chain. destruct (hint chain) as [h|] eqn:Hh.
  2:{ rewrite (_prompt_loop_unwritable _ _ _ _ Hh). cbn [fst snd].
      split; [assumption|discriminate]. }
  revert t Ht. induction lines as [|line rest IH]; intros t Ht.
  - rewrite (_prompt_loop_nil _ _ h _ Hh). cbn [fst snd]. split; [|discriminate].
    apply Forall_app. split; [assumption|].
    apply Forall_app. split; [|now repeat constructor].
    apply hint_events_menu_call_ok.
  - rewrite (_prompt_loop_cons _ _ h _ _ _ Hh). cbv zeta.
    assert (Ht0 : Forall menu_call_ok
                    (t ++ hint_events chain ++ [EInput (_character self)])).
    { apply Forall_app. split; [assumption|].
      apply Forall_app. split; [|now repeat constructor].
      apply hint_events_menu_call_ok. }
    destruct (should_exit (Str.strip line)).
    { cbn [fst snd]. split; [assumption|discriminate]. }
    destruct (menu_chain_calls_ok options (Str.strip line) _ Ht0)
      as (Hcalls & Hassert & _).
    fold chain in Hcalls, Hassert.
    destruct (meet chain (VStr (Str.strip line)) _) as [[x|e] t1];
      cbn [fst snd] in *.
    + split; [assumption|discriminate].
    + destruct e; try (split; [assumption|]; try discriminate).
      * apply IH. apply Forall_app. split; [assumption|now repeat constructor].
      * intros _. now apply Hassert.
Qed.

(** C4.  On an integer within 1..len(options) [Menu.meet] returns the
    item at that 1-based position; on any other integer it fails with
    AssertionError, which is no ValidationError.  In the chain that
    [Prompt.menu] composes every call of [Menu.meet] is within the
    precondition, and the prompt never ends in AssertionError. *)
Theorem Menu_meet_precondition :
  (forall options z t,
      (1 <= z <= Z.of_nat (List.length options) ->
       exists x, nth_error options (Z.to_nat (z - 1)) = Some x
                 /\ meet (Menu options) (VInt z) t
                    = (Ok x, t ++ [ECall (Menu options) (VInt z)]))
      /\ (~ 1 <= z <= Z.of_nat (List.length options) ->
          meet (Menu options) (VInt z) t
          = (Raise AssertionError, t ++ [ECall (Menu options) (VInt z)])))
  /\ (forall e, AssertionError <> Validation e)
  /\ (forall options raw,
         let chain :=
           Chain [Number; Between 1 (Z.of_nat (List.length options));
                  Menu options] in
         Forall menu_call_ok (snd (meet chain (VStr raw) []))
         /\ fst (meet chain (VStr raw) []) <> Raise AssertionError)
  /\ (forall self options lines,
         Forall menu_call_ok (snd (menu self options lines []))
         /\ fst (menu self options lines []) <> Raise AssertionError).
Proof.
  split; [|split; [|split]].
  - intros options z t. cbn [meet as_int]. unfold bind, emit. split; intros H.
    + destruct (nth_error_in_range options z H) as (x & Hx).
      exists x. split; [assumption|].
      apply range_test_true in H. rewrite H.
      unfold subscript_list. now rewrite Hx.
    + destruct ((1 <=? z) && (z <=? _)) eqn:E; [|reflexivity].
      apply range_test_true in E. contradiction.
  - discriminate.
  - intros options raw chain.
    destruct (menu_chain_calls_ok options raw [] (Forall_nil _))
      as (H1 & H2 & _).
    split; assumption.
  - intros self options lines. unfold menu.
    set (chain := Chain _). destruct (describe chain) as [d|] eqn:Hd.
    + rewrite (_prompt_unfold _ _ d _ _ Hd).
      apply menu_loop_calls_ok. apply describe_events_menu_call_ok.
    + rewrite (_prompt_unwritable _ _ _ _ Hd). cbn [fst snd].
      split; [constructor|discriminate].
Qed.

Lemma Menu_meet_precondition_witness :
  (exists x, nth_error [VStr "a"; VStr "b"] (Z.to_nat (2 - 1)) = Some x
             /\ meet (Menu [VStr "a"; VStr "b"]) (VInt 2) []
                = (Ok x, [ECall (Menu [VStr "a"; VStr "b"]) (VInt 2)]))
  /\ meet (Menu [VStr "a"; VStr "b"]) (VInt 3) []
     = (Raise AssertionError, [ECall (Menu [VStr "a"; VStr "b"]) (VInt 3)]).
Proof.
  split.
  - apply (proj1 (proj1 Menu_meet_precondition [VStr "a"; VStr "b"] 2 [])).
    cbn. lia.
  - apply (proj2 (proj1 Menu_meet_precondition [VStr "a"; VStr "b"] 3 [])).
    cbn. lia.
Defined.

(** ** Exit keywords *)

Lemma prefix_iff sub s :
  String.prefix sub s = true <-> exists post, s = (sub ++ post)%string.
Proof.
  revert s. induction sub as [|a sub IH]; intros s.
  - split; [intros _; now exists s|intros _; now destruct s].
  - destruct s as [|b s]; cbn [String.prefix String.append].
    + split; [discriminate|intros (post & H); discriminate H].
    + destruct (ascii_dec a b) as [->|N].
      * rewrite IH. split; intros (post & H); exists post; congruence.
      * split; [discriminate|intros (post & H); congruence].
Qed.

Lemma contains_iff sub s :
  Str.contains sub s = true
  <-> exists pre post, s = (pre ++ sub ++ post)%string.
Proof.
  induction s as [|c s IH]; cbn [Str.contains].
  - destruct (String.prefix sub "") eqn:E.
    + apply prefix_iff in E. destruct E as (post & E).
      split; [intros _; now exists ""%string, post|reflexivity].
    + split; [discriminate|]. intros (pre & post & H).
      destruct pre; cbn [String.append] in H; [|discriminate].
      assert (String.prefix sub "" = true) by (apply prefix_iff; eauto).
      congruence.
  - destruct (String.prefix sub (String c s)) eqn:E.
    + apply prefix_iff in E. destruct E as (post & E).
      split; [intros _; now exists ""%string, post|reflexivity].
    + rewrite IH. split.
      * intros (pre & post & ->). now exists (String c pre), post.
      * intros (pre & post & H). destruct pre as [|c' pre];
          cbn [String.append] in H.
        -- assert (String.prefix sub (String c s) = true)
             by (apply prefix_iff; eauto).
           congruence.
        -- exists pre, post. congruence.
Qed.

(** [_test_exit] raises exactly on the strings whose lowercased form
    contains an exit keyword. *)
Lemma should_exit_iff s :
  should_exit s = true
  <-> exists kw pre post,
      In kw EXIT /\ Str.lower s = (pre ++ kw ++ post)%string.
Proof.
  unfold should_exit. rewrite existsb_exists. split.
  - intros (kw & Hin & H). apply contains_iff in H.
    destruct H as (pre & post & H). now exists kw, pre, post.
  - intros (kw & pre & post & Hin & H). exists kw. split; [assumption|].
    apply contains_iff. eauto.
Qed.


Lemma rejected_step self r h line t :
  hint r = Some h ->
  rejected r line ->
  exists t1, forall rest : list string,
      _prompt_loop self r (line :: rest) t = _prompt_loop self r rest t1.
Proof.
  intros Hh (Hexit & e & He).
  pose proof (logs_only_frame _ _ (logs_only_meet r (VStr (Str.strip line)))
                (t ++ hint_events r ++ [EInput (_character self)])) as Hm.
  rewrite He in Hm. eexists. intros rest'.
  rewrite (_prompt_loop_cons _ _ h _ _ _ Hh). cbv zeta.
  rewrite Hexit, Hm. reflexivity.
Qed.

Lemma exit_after_rejected self r h retried :
  hint r = Some h ->
  Forall (rejected r) retried ->
  forall line rest t,
    should_exit (Str.strip line) = true ->
    _prompt_loop self r (retried ++ line :: rest) t
    = (Raise Exit, snd (_prompt_loop self r retried t)).
Proof.
  intros Hh. induction 1 as [|l retried Hl _ IH]; intros line rest t Hexit.
  - cbn [app]. rewrite (_prompt_loop_cons _ _ h _ _ _ Hh).
    rewrite (_prompt_loop_nil _ _ h _ Hh). cbv zeta.
    now rewrite Hexit.
  - destruct (rejected_step self r h l t Hh Hl) as (t1 & Ht1).
    cbn [app]. rewrite !Ht1. now apply IH.
Qed.

(** C2.  A line whose stripped, lowercased form contains "exit" or
    "quit" makes the loop raise Exit right after the line is read: the
    trace ends with the read, with no call of [meet] and no message
    after it, also when the line comes after lines that were rejected.
    Exit is no ValidationError and passes through the handler of the
    loop.  (Where the hint or the display string cannot be written, the
    prompt has raised ValueError before any line is read.) *)
Theorem exit_keyword_cancels :
  (forall self r line rest t kw pre post,
      In kw EXIT ->
      Str.lower (Str.strip line) = (pre ++ kw ++ post)%string ->
      _prompt_loop self r (line :: rest) t
      = match hint r with
        | Some _ =>
            (Raise Exit, t ++ hint_events r ++ [EInput (_character self)])
        | None => (Raise ValueError, t)
        end)
  /\ (forall self r retried line rest t kw pre post,
         Forall (rejected r) retried ->
         In kw EXIT ->
         Str.lower (Str.strip line) = (pre ++ kw ++ post)%string ->
         _prompt self r (retried ++ line :: rest) t
         = (if displays r then Raise Exit else Raise ValueError,
            snd (_prompt self r retried t)))
  /\ (forall e, Exit <> Validation e)
  /\ (forall A (h : ValidationError -> M A) t,
         try_except (raise Exit) h t = (Raise Exit, t)).
Proof.
  split; [|split; [|split]].
  - intros self r line rest t kw pre post Hin H.
    destruct (hint r) as [h|] eqn:Hh.
    + rewrite (_prompt_loop_cons _ _ h _ _ _ Hh). cbv zeta.
      replace (should_exit (Str.strip line)) with true; [reflexivity|].
      symmetry. apply should_exit_iff. eauto.
    + now apply _prompt_loop_unwritable.
  - intros self r retried line rest t kw pre post Hret Hin H.
    unfold displays. destruct (describe r) as [d|] eqn:Hd.
    + rewrite !(_prompt_unfold _ _ d _ _ Hd).
      destruct (hint r) as [h|] eqn:Hh.
      * apply (exit_after_rejected _ _ h); try assumption.
        apply should_exit_iff. eauto.
      * now rewrite !(_prompt_loop_unwritable _ _ _ _ Hh).
    + now rewrite !(_prompt_unwritable _ _ _ _ Hd).
  - discriminate.
  - reflexivity.
Qed.

Lemma exit_keyword_cancels_witness :
  _prompt_loop default_prompt (Between 1 3) ["  Quit now "%string; "2"%string] []
  = (Raise Exit, [EPrint "(1 - 3)" " "; EInput "> "])
  /\ _prompt default_prompt Number ["abc"%string; "EXIT"%string; "7"%string] []
     = (Raise Exit,
        [EInput "> "; ECall Number (VStr "abc");
         EPrint "'abc' is not a number" Str.LF; EInput "> "]).
Proof.
  split.
  - rewrite (proj1 exit_keyword_cancels default_prompt (Between 1 3)
               "  Quit now "%string ["2"%string] []
               "quit"%string ""%string " now"%string).
    + vm_compute. reflexivity.
    + cbn. right. left. reflexivity.
    + vm_compute. reflexivity.
  - change ["abc"%string; "EXIT"%string; "7"%string]
      with (["abc"%string] ++ "EXIT"%string :: ["7"%string]).
    rewrite (proj1 (proj2 exit_keyword_cancels) default_prompt Number
               ["abc"%string] "EXIT"%string ["7"%string] []
               "exit"%string ""%string ""%string).
    + vm_compute. reflexivity.
    + constructor; [|constructor]. split; [vm_compute; reflexivity|].
      exists (NotANumber "abc"). vm_compute. reflexivity.
    + cbn. left. reflexivity.
    + vm_compute. reflexivity.
Defined.

(** C5.  With the lines "abc" and "2", [between(1, 3)] writes the
    NotANumber message for "abc" once, prompts again and returns 2.  In
    every iteration a ValidationError of [meet] is answered by writing
    its message and running the loop on the remaining lines, and a value
    of [meet] is returned as it is.  (Where the hint cannot be written,
    the loop has raised ValueError before the line is read.) *)
Theorem between_retry_then_return :
  (forall self,
      between self 1 3 ["abc"%string; "2"%string] []
      = (Ok (VInt 2),
         [EPrint "(1 - 3)" " "; EInput (_character self);
          ECall (Chain [Number; Between 1 3]) (VStr "abc");
          ECall Number (VStr "abc");
          EPrint "'abc' is not a number" Str.LF;
          EPrint "(1 - 3)" " "; EInput (_character self);
          ECall (Chain [Number; Between 1 3]) (VStr "2");
          ECall Number (VStr "2"); ECall (Between 1 3) (VInt 2)]))
  /\ (forall self r line rest t e t1,
         should_exit (Str.strip line) = false ->
         meet r (VStr (Str.strip line))
           (t ++ hint_events r ++ [EInput (_character self)])
         = (Raise (Validation e), t1) ->
         match hint r with
         | Some _ =>
             exists message,
               ValidationError_str e = Some message
               /\ _prompt_loop self r (line :: rest) t
                  = _prompt_loop self r rest (t1 ++ [EPrint message Str.LF])
         | None => _prompt_loop self r (line :: rest) t = (Raise ValueError, t)
         end)
  /\ (forall self r line rest t x t1,
         should_exit (Str.strip line) = false ->
         meet r (VStr (Str.strip line))
           (t ++ hint_events r ++ [EInput (_character self)])
         = (Ok x, t1) ->
         _prompt_loop self r (line :: rest) t
         = match hint r with
           | Some _ => (Ok x, t1)
           | None => (Raise ValueError, t)
           end).
Proof.
  split; [|split].
  - intros self. vm_compute. reflexivity.
  - intros self r line rest t e t1 Hexit Hm.
    destruct (hint r) as [h|] eqn:Hh.
    + destruct (message_writable r h Hh _ _ _ _ Hm) as (message & Hmsg).
      exists message. split; [assumption|].
      rewrite (_prompt_loop_cons _ _ h _ _ _ Hh). cbv zeta.
      rewrite Hexit, Hm. unfold message_of. now rewrite Hmsg.
    + now apply _prompt_loop_unwritable.
  - intros self r line rest t x t1 Hexit Hm.
    destruct (hint r) as [h|] eqn:Hh.
    + rewrite (_prompt_loop_cons _ _ h _ _ _ Hh). cbv zeta.
      now rewrite Hexit, Hm.
    + now apply _prompt_loop_unwritable.
Qed.

Lemma between_retry_then_return_witness :
  (exists message,
      ValidationError_str (NotANumber "abc") = Some message
      /\ _prompt_loop default_prompt Number ["abc"%string; "2"%string] []
         = _prompt_loop default_prompt Number ["2"%string]
             ([EInput "> "; ECall Number (VStr "abc")]
                ++ [EPrint message Str.LF]))
  /\ _prompt_loop default_prompt Number ["2"%string] []
     = (Ok (VInt 2), [EInput "> "; ECall Number (VStr "2")]).
Proof.
  split.
  - refine (proj1 (proj2 between_retry_then_return) default_prompt Number
              "abc"%string ["2"%string] [] (NotANumber "abc")
              [EInput "> "; ECall Number (VStr "abc")] _ _).
    + vm_compute. reflexivity.
    + vm_compute. reflexivity.
  - refine (proj2 (proj2 between_retry_then_return) default_prompt Number
              "2"%string [] [] (VInt 2)
              [EInput "> "; ECall Number (VStr "2")] _ _).
    + vm_compute. reflexivity.
    + vm_compute. reflexivity.
Defined.
(** ** Number *)

Lemma digits_string_of_uint d :
  forall acc n,
    IntParse.digits (NilEmpty.string_of_uint d) acc n
    = if Str.int_max_str_digits
         <? n + Z.of_nat (String.length (NilEmpty.string_of_uint d))
      then None else Some (uint_value d acc).
Proof.
  induction d; intros acc n;
    cbn [NilEmpty.string_of_uint uint_value String.length];
    [cbn [IntParse.digits]; now rewrite Z.add_0_r|..];
    (etransitivity; [apply IHd|]);
    replace (n + 1 + Z.of_nat (String.length (NilEmpty.string_of_uint d)))
      with (n + Z.of_nat (S (String.length (NilEmpty.string_of_uint d))))
      by lia;
    reflexivity.
Qed.

Lemma uint_value_of_lu d :
  forall d0,
    uint_value d (Z.of_N (DecimalPos.Unsigned.of_lu d0))
    = Z.of_N (DecimalPos.Unsigned.of_lu (Decimal.revapp d d0)).
Proof.
  induction d; intros d0; cbn [uint_value Decimal.revapp];
    [reflexivity|..]; rewrite <- IHd; f_equal;
    cbn [DecimalPos.Unsigned.of_lu]; lia.
Qed.

Lemma uint_value_of_uint d : uint_value d 0 = Z.of_uint d.
Proof.
  unfold Z.of_uint. rewrite DecimalPos.Unsigned.of_uint_alt.
  apply (uint_value_of_lu d Decimal.Nil).
Qed.

Lemma unsigned_string_of_uint d :
  d <> Decimal.Nil ->
  IntParse.unsigned (NilEmpty.string_of_uint d)
  = if Str.int_max_str_digits
       <? Z.of_nat (String.length (NilEmpty.string_of_uint d))
    then None else Some (Z.of_uint d).
Proof.
  intros Hd. rewrite <- uint_value_of_uint.
  destruct d; [contradiction|..];
    cbn [NilEmpty.string_of_uint IntParse.unsigned uint_value String.length];
    (etransitivity;
     [change (Str.is_digit _) with true; cbv iota;
      apply digits_string_of_uint|]);
    match goal with
    | |- context [1 + Z.of_nat (String.length ?s)] =>
        replace (1 + Z.of_nat (String.length s))
          with (Z.of_nat (S (String.length s))) by lia
    end;
    reflexivity.
Qed.

Lemma signed_string_of_uint d :
  d <> Decimal.Nil ->
  IntParse.signed (NilEmpty.string_of_uint d)
  = IntParse.unsigned (NilEmpty.string_of_uint d).
Proof. intros Hd. destruct d; [contradiction|..]; reflexivity. Qed.

Lemma rev_acc_rev_acc s :
  forall a b, Str.rev_acc (Str.rev_acc s a) b = Str.rev_acc a (s ++ b)%string.
Proof.
  induction s as [|c s IH]; intros a b; cbn [Str.rev_acc String.append];
    [reflexivity|].
  now rewrite IH.
Qed.

Lemma rev_rev s : Str.rev (Str.rev s) = s.
Proof.
  unfold Str.rev. rewrite rev_acc_rev_acc. cbn [Str.rev_acc].
  induction s as [|c s IH]; cbn [String.append]; congruence.
Qed.

Lemma none_of_rev_acc p s :
  forall a, none_of p s = true -> none_of p a = true ->
            none_of p (Str.rev_acc s a) = true.
Proof.
  induction s as [|c s IH]; intros a Hs Ha; cbn [Str.rev_acc]; [assumption|].
  cbn [none_of] in Hs. apply andb_true_iff in Hs. destruct Hs as [Hc Hs].
  apply IH; [assumption|]. cbn [none_of]. now rewrite Hc.
Qed.

Lemma lstrip_by_none_of p s : none_of p s = true -> Str.lstrip_by p s = s.
Proof.
  destruct s as [|c s]; [reflexivity|]. cbn [none_of Str.lstrip_by].
  intros H. apply andb_true_iff in H. destruct H as [Hc _].
  now destruct (p c).
Qed.

Lemma strip_by_none_of p s : none_of p s = true -> Str.strip_by p s = s.
Proof.
  intros H. unfold Str.strip_by, Str.rstrip_by.
  rewrite (lstrip_by_none_of p s H).
  rewrite lstrip_by_none_of; [apply rev_rev|].
  now apply none_of_rev_acc.
Qed.

Lemma none_of_string_of_uint d :
  none_of IntParse.is_space (NilEmpty.string_of_uint d) = true.
Proof. induction d; cbn [NilEmpty.string_of_uint none_of]; auto. Qed.

(** Reading back the decimal writing of an integer: the integer, unless
    it has more digits than the limit. *)
Lemma parse_decimal z :
  IntParse.parse (Str.decimal z)
  = if Str.int_max_str_digits <? Str.digit_count z then None else Some z.
Proof.
  unfold IntParse.parse, Str.digit_count, Str.decimal.
  rewrite <- (DecimalZ.of_to z) at 3.
  destruct z as [|p|p]; [reflexivity|..];
    cbn [Z.abs Z.to_int NilZero.string_of_int Z.of_int];
    pose proof (DecimalPos.Unsigned.to_uint_nonnil p) as Hp;
    unfold NilZero.string_of_uint;
    destruct (Pos.to_uint p) eqn:E; try contradiction; rewrite <- E in *.
  all: rewrite strip_by_none_of;
    [| cbn [none_of]; rewrite ?none_of_string_of_uint; reflexivity].
  all: try (rewrite signed_string_of_uint by assumption;
            now apply unsigned_string_of_uint).
  all: cbn [IntParse.signed]; rewrite unsigned_string_of_uint by assumption;
    now destruct (_ <? _).
Qed.

(** C7.  [Number().meet] turns a string into the integer [int] reads
    from it: "42" gives 42, and what [str] writes for an integer gives
    that integer back.  A string [int] rejects, such as "abc" or the
    digits of an integer too long to be written, fails with NotANumber
    carrying the string as it was passed. *)
Theorem Number_meet_parses :
  (forall t, meet Number (VStr "42") t
             = (Ok (VInt 42), t ++ [ECall Number (VStr "42")]))
  /\ (forall z s t, Str.of_Z z = Some s ->
                    meet Number (VStr s) t
                    = (Ok (VInt z), t ++ [ECall Number (VStr s)]))
  /\ (forall s z t, IntParse.parse s = Some z ->
                    meet Number (VStr s) t
                    = (Ok (VInt z), t ++ [ECall Number (VStr s)]))
  /\ (forall s t, IntParse.parse s = None ->
                  meet Number (VStr s) t
                  = (Raise (Validation (NotANumber s)),
                     t ++ [ECall Number (VStr s)]))
  /\ IntParse.parse "abc" = None
  /\ (forall z, Str.of_Z z = None -> IntParse.parse (Str.decimal z) = None).
Proof.
  repeat split.
  - intros z s t. unfold Str.of_Z. intros H.
    cbn [meet py_int]. unfold bind, emit.
    pose proof (parse_decimal z) as Hp.
    destruct (Str.int_max_str_digits <? Str.digit_count z); [discriminate|].
    injection H as <-. now rewrite Hp.
  - intros s z t H. cbn [meet py_int]. unfold bind, emit. now rewrite H.
  - intros s t H. cbn [meet py_int]. unfold bind, emit. now rewrite H.
  - intros z. unfold Str.of_Z. rewrite parse_decimal.
    now destruct (Str.int_max_str_digits <? Str.digit_count z).
Qed.

Lemma Number_meet_parses_witness :
  meet Number (VStr "-12") [] = (Ok (VInt (-12)), [ECall Number (VStr "-12")])
  /\ meet Number (VStr " -1_000 ") []
     = (Ok (VInt (-1000)), [ECall Number (VStr " -1_000 ")])
  /\ meet Number (VStr "abc") []
     = (Raise (Validation (NotANumber "abc")), [ECall Number (VStr "abc")]).
Proof.
  split; [|split].
  - apply (proj1 (proj2 Number_meet_parses) (-12) "-12"%string []).
    vm_compute. reflexivity.
  - apply (proj1 (proj2 (proj2 Number_meet_parses))
             " -1_000 "%string (-1000) []).
    vm_compute. reflexivity.
  - apply (proj1 (proj2 (proj2 (proj2 Number_meet_parses))) "abc"%string []).
    vm_compute. reflexivity.
Defined.

(** ** The model on concrete inputs *)

Example parse_accepts :
  map IntParse.parse
    ["42"; "-7"; "+3"; "007"; "1_000"; " 12 "]%string
  = [Some 42; Some (-7); Some 3; Some 7; Some 1000; Some 12].
Proof. reflexivity. Qed.

Example parse_rejects :
  map IntParse.parse
    [""; "abc"; "12a"; "1__0"; "_1"; "1_"; "- 1"; "0x10"; "1 2"]%string
  = [None; None; None; None; None; None; None; None; None].
Proof. reflexivity. Qed.

Example digit_limit :
  Str.of_Z (10 ^ 4300) = None
  /\ between default_prompt 0 (10 ^ 4300) ["1"%string] []
     = (Raise ValueError, []).
Proof. split; vm_compute; reflexivity. Qed.

Example strip_lower_contains :
  Str.lower (Str.strip "  Please QUIT ") = "please quit"%string
  /\ should_exit "please quit" = true
  /\ should_exit "exi t" = false.
Proof. repeat split. Qed.

Example chain_hint_example :
  hint (Chain [Number; Between 1 3;
               Choice [("yes"%string, VBool true); ("no"%string, VBool false)]])
  = Some "1 - 3, yes/no"%string.
Proof. vm_compute. reflexivity. Qed.

Example menu_describe_example :
  describe (Chain [Number; Between 1 2; Menu [VStr "tea"; VInt 4]])
  = Some ("1. tea" ++ Str.LF ++ "2. 4")%string.
Proof. vm_compute. reflexivity. Qed.

Example not_an_option_message :
  ValidationError_str (NotAnOption (VStr "yes/no"))
  = Some "Please select one of yes/no"%string
  /\ ValidationError_str (NotAnOption (VList [VStr "yes"; VStr "no"]))
     = Some "Please select one of ['yes', 'no']"%string.
Proof. split; vm_compute; reflexivity. Qed.

Example menu_prompt_example :
  menu default_prompt [VStr "tea"; VStr "milk"] ["0"; "x"; "2"]%string []
  = (Ok (VStr "milk"),
     let chain := Chain [Number; Between 1 2; Menu [VStr "tea"; VStr "milk"]] in
     [EPrint ("1. tea" ++ Str.LF ++ "2. milk") Str.LF;
      EPrint "(1 - 2)" " "; EInput "> ";
      ECall chain (VStr "0"); ECall Number (VStr "0");
      ECall (Between 1 2) (VInt 0);
      EPrint "Please provide a value between 1 and 2" Str.LF;
      EPrint "(1 - 2)" " "; EInput "> ";
      ECall chain (VStr "x"); ECall Number (VStr "x");
      EPrint "'x' is not a number" Str.LF;
      EPrint "(1 - 2)" " "; EInput "> ";
      ECall chain (VStr "2"); ECall Number (VStr "2");
      ECall (Between 1 2) (VInt 2);
      ECall (Menu [VStr "tea"; VStr "milk"]) (VInt 2)]).
Proof. vm_compute. reflexivity. Qed.

(** * Further properties of the prompt loop *)

Lemma meet_frame r v t :
  meet r v t = (fst (meet r v []), t ++ snd (meet r v [])).
Proof. exact (logs_only_frame _ _ (logs_only_meet r v) t). Qed.

Lemma meet_calls r v : Forall is_call (snd (meet r v [])).
Proof.
  destruct (logs_only_meet r v) as (o & calls & Hc & Hm).
  rewrite (Hm []). exact Hc.
Qed.

Lemma _prompt_loop_ok_inv self r lines :
  forall t v t',
    _prompt_loop self r lines t = (Ok v, t') ->
    exists line, In line lines /\ accepted r line v.
Proof.
  destruct (hint r) as [h|] eqn:Hh.
  2:{ intros t v t'. rewrite (_prompt_loop_unwritable _ _ _ _ Hh).
      discriminate. }
  induction lines as [|l rest IH]; intros t v t'.
  - rewrite (_prompt_loop_nil _ _ h _ Hh). discriminate.
  - rewrite (_prompt_loop_cons _ _ h _ _ _ Hh). cbv zeta.
    destruct (should_exit (Str.strip l)) eqn:Hexit; [discriminate|].
    rewrite meet_frame.
    destruct (fst (meet r (VStr (Str.strip l)) [])) as [x|e] eqn:Hm.
    + intros [= -> _]. exists l. split; [now left|]. now split.
    + destruct e; try discriminate.
      intros H. destruct (IH _ _ _ H) as (line & Hin & Hacc).
      exists line. split; [now right|assumption].
Qed.

Lemma _prompt_ok_inv self r lines t v t' :
  _prompt self r lines t = (Ok v, t') ->
  exists line, In line lines /\ accepted r line v.
Proof.
  destruct (describe r) as [d|] eqn:Hd.
  - rewrite (_prompt_unfold _ _ d _ _ Hd). apply _prompt_loop_ok_inv.
  - rewrite (_prompt_unwritable _ _ _ _ Hd). discriminate.
Qed.

Lemma rejected_step_trace self r h line :
  hint r = Some h ->
  rejected r line ->
  exists e calls,
    Forall is_call calls
    /\ fst (meet r (VStr (Str.strip line)) []) = Raise (Validation e)
    /\ forall rest t,
        _prompt_loop self r (line :: rest) t
        = _prompt_loop self r rest
            (t ++ hint_events r ++ [EInput (_character self)] ++ calls
               ++ [EPrint (message_of e) Str.LF]).
Proof.
  intros Hh (Hexit & e & He).
  exists e, (snd (meet r (VStr (Str.strip line)) [])).
  split; [apply meet_calls|]. split; [assumption|].
  intros rest t. rewrite (_prompt_loop_cons _ _ h _ _ _ Hh). cbv zeta.
  rewrite Hexit, meet_frame, He. now rewrite <- !app_assoc.
Qed.

(** X1.  A value the prompt returns is the value [meet] gives for the
    stripped form of one of the lines read, a line free of exit
    keywords. *)
Theorem prompt_returns_accepted_line :
  forall self r lines t v t',
    _prompt self r lines t = (Ok v, t') ->
    exists line, In line lines /\ accepted r line v.
Proof. intros self r lines t v t'. apply _prompt_ok_inv. Qed.

Lemma prompt_returns_accepted_line_witness :
  exists line, In line ["x"; " 7 "]%string /\ accepted Number line (VInt 7).
Proof.
  apply (prompt_returns_accepted_line default_prompt Number
           ["x"; " 7 "]%string [] (VInt 7)
           [EInput "> "; ECall Number (VStr "x");
            EPrint "'x' is not a number" Str.LF;
            EInput "> "; ECall Number (VStr "7")]).
  vm_compute. reflexivity.
Defined.

(** X2.  After any number of rejected lines, the first accepted line
    ends the prompt with its value; the lines after it are not read.
    (Where the hint or the display string cannot be written, the prompt
    has raised ValueError before any line is read.) *)
Theorem prompt_first_accepted_line :
  forall self r retried line rest t v,
    Forall (rejected r) retried ->
    accepted r line v ->
    _prompt self r (retried ++ line :: rest) t
    = if displays r
      then (Ok v,
            snd (_prompt self r retried t)
              ++ snd (meet r (VStr (Str.strip line)) []))
      else (Raise ValueError, snd (_prompt self r retried t)).
Proof.
  intros self r retried line rest t v Hret (Hexit & Hv).
  unfold displays. destruct (describe r) as [d|] eqn:Hd.
  2:{ now rewrite !(_prompt_unwritable _ _ _ _ Hd). }
  rewrite !(_prompt_unfold _ _ d _ _ Hd).
  destruct (hint r) as [h|] eqn:Hh.
  2:{ now rewrite !(_prompt_loop_unwritable _ _ _ _ Hh). }
  generalize (t ++ describe_events r). clear t.
  induction Hret as [|l retried Hl _ IH]; intros t.
  - cbn [app]. rewrite (_prompt_loop_cons _ _ h _ _ _ Hh).
    rewrite (_prompt_loop_nil _ _ h _ Hh). cbv zeta.
    now rewrite Hexit, meet_frame, Hv.
  - destruct (rejected_step self r h l t Hh Hl) as (t1 & Ht1).
    cbn [app]. rewrite !Ht1. apply IH.
Qed.

Lemma prompt_first_accepted_line_witness :
  _prompt default_prompt Number
    (["x"%string] ++ "7"%string :: ["8"%string]) []
  = (Ok (VInt 7),
     snd (_prompt default_prompt Number ["x"%string] [])
       ++ snd (meet Number (VStr (Str.strip "7")) [])).
Proof.
  apply (prompt_first_accepted_line default_prompt Number
           ["x"%string] "7"%string ["8"%string] [] (VInt 7)).
  - constructor; [|constructor]. split; [vm_compute; reflexivity|].
    exists (NotANumber "x"). vm_compute. reflexivity.
  - split; vm_compute; reflexivity.
Defined.

Lemma filter_calls_nil (f : event -> bool) calls :
  (forall r v, f (ECall r v) = false) ->
  Forall is_call calls -> filter f calls = [].
Proof.
  intros Hf. induction 1 as [|ev calls Hev _ IH]; [reflexivity|].
  destruct ev; try contradiction. cbn [filter]. now rewrite Hf.
Qed.

Lemma hint_events_no_read r : filter is_read (hint_events r) = [].
Proof.
  unfold hint_events. destruct (hint r) as [h|]; [|reflexivity].
  now destruct (nonempty h).
Qed.

Lemma hint_events_no_line_print r :
  filter is_line_print (hint_events r) = [].
Proof.
  unfold hint_events. destruct (hint r) as [h|]; [|reflexivity].
  now destruct (nonempty h).
Qed.

Lemma describe_events_no_read r : filter is_read (describe_events r) = [].
Proof.
  unfold describe_events. destruct (describe r) as [d|]; [|reflexivity].
  now destruct (nonempty d).
Qed.

Lemma describe_events_line_prints r :
  filter is_line_print (describe_events r) = describe_events r.
Proof.
  unfold describe_events. destruct (describe r) as [d|]; [|reflexivity].
  now destruct (nonempty d).
Qed.

Lemma _prompt_loop_all_rejected self r h lines :
  hint r = Some h ->
  Forall (rejected r) lines ->
  forall t,
    fst (_prompt_loop self r lines t) = Raise EOFError
    /\ List.length (filter is_read (snd (_prompt_loop self r lines t)))
       = (List.length (filter is_read t) + List.length lines + 1)%nat
    /\ List.length (filter is_line_print (snd (_prompt_loop self r lines t)))
       = (List.length (filter is_line_print t) + List.length lines)%nat.
Proof.
  intros Hh. induction 1 as [|l lines Hl _ IH]; intros t.
  - rewrite (_prompt_loop_nil _ _ h _ Hh). cbn [fst snd].
    rewrite !filter_app, !length_app, hint_events_no_read,
      hint_events_no_line_print.
    cbn. split; [reflexivity|split; lia].
  - destruct (rejected_step_trace self r h l Hh Hl)
      as (e & calls & Hc & _ & Hstep).
    rewrite Hstep. destruct (IH (t ++ hint_events r
        ++ [EInput (_character self)] ++ calls
        ++ [EPrint (message_of e) Str.LF])) as (H1 & H2 & H3).
    rewrite H1, H2, H3.
    rewrite !filter_app, !length_app, hint_events_no_read,
      hint_events_no_line_print.
    rewrite (filter_calls_nil is_read calls) by (assumption || reflexivity).
    rewrite (filter_calls_nil is_line_print calls)
      by (assumption || reflexivity).
    cbn [filter is_read is_line_print]. rewrite String.eqb_refl.
    cbn [List.length app]. split; [reflexivity|split; lia].
Qed.

(** X3.  When every line is rejected the prompt goes on to the end of
    the input: it ends with EOFError, after one read and one validation
    message per line and one last read; there is no limit of retries.
    (Where the hint or the display string cannot be written, the prompt
    raises ValueError and reads nothing.) *)
Theorem prompt_all_rejected_reads_on :
  forall self r lines,
    Forall (rejected r) lines ->
    if displays r then
      fst (_prompt self r lines []) = Raise EOFError
      /\ List.length (filter is_read (snd (_prompt self r lines [])))
         = (List.length lines + 1)%nat
      /\ List.length (filter is_line_print (snd (_prompt self r lines [])))
         = (List.length (describe_events r) + List.length lines)%nat
    else
      fst (_prompt self r lines []) = Raise ValueError
      /\ filter is_read (snd (_prompt self r lines [])) = [].
Proof.
  intros self r lines H. unfold displays.
  destruct (describe r) as [d|] eqn:Hd.
  2:{ now rewrite (_prompt_unwritable _ _ _ _ Hd). }
  rewrite (_prompt_unfold _ _ d _ _ Hd). cbn [app].
  destruct (hint r) as [h|] eqn:Hh.
  2:{ rewrite (_prompt_loop_unwritable _ _ _ _ Hh). cbn [fst snd].
      split; [reflexivity|apply describe_events_no_read]. }
  destruct (_prompt_loop_all_rejected self r h lines Hh H (describe_events r))
    as (H1 & H2 & H3).
  rewrite H1, H2, H3, describe_events_no_read, describe_events_line_prints.
  repeat split.
Qed.

Lemma prompt_all_rejected_reads_on_witness :
  fst (_prompt default_prompt Number ["x"; "y"]%string []) = Raise EOFError
  /\ List.length
       (filter is_read
          (snd (_prompt default_prompt Number ["x"; "y"]%string [])))
     = (List.length ["x"; "y"]%string + 1)%nat
  /\ List.length
       (filter is_line_print
          (snd (_prompt default_prompt Number ["x"; "y"]%string [])))
     = (List.length (describe_events Number)
        + List.length ["x"; "y"]%string)%nat.
Proof.
  apply (prompt_all_rejected_reads_on default_prompt Number
           ["x"; "y"]%string).
  repeat constructor; try (vm_compute; reflexivity).
  - exists (NotANumber "x"). vm_compute. reflexivity.
  - exists (NotANumber "y"). vm_compute. reflexivity.
Defined.

Lemma _prompt_loop_no_validation self r lines :
  forall t e, fst (_prompt_loop self r lines t) <> Raise (Validation e).
Proof.
  destruct (hint r) as [h|] eqn:Hh.
  2:{ intros t e. rewrite (_prompt_loop_unwritable _ _ _ _ Hh).
      discriminate. }
  induction lines as [|l rest IH]; intros t e.
  - rewrite (_prompt_loop_nil _ _ h _ Hh). discriminate.
  - rewrite (_prompt_loop_cons _ _ h _ _ _ Hh). cbv zeta.
    destruct (should_exit (Str.strip l)); [discriminate|].
    destruct (meet r (VStr (Str.strip l)) _) as [[x|e'] t1];
      [discriminate|].
    destruct e'; try discriminate. apply IH.
Qed.

(** X4.  No ValidationError leaves the prompt, whatever the requirement
    and the input: the loop handles every one of them. *)
Theorem prompt_never_raises_validation :
  forall self r lines t e,
    fst (_prompt self r lines t) <> Raise (Validation e).
Proof.
  intros self r lines t e. destruct (describe r) as [d|] eqn:Hd.
  - rewrite (_prompt_unfold _ _ d _ _ Hd). apply _prompt_loop_no_validation.
  - rewrite (_prompt_unwritable _ _ _ _ Hd). discriminate.
Qed.

(** * The public operations of [Prompt] *)

(** ** What the composed requirements do on a string *)

Lemma Number_meet_str s :
  fst (meet Number (VStr s) [])
  = match IntParse.parse s with
    | Some z => Ok (VInt z)
    | None => Raise (Validation (NotANumber s))
    end.
Proof.
  cbn [meet py_int]. unfold bind, emit. cbn [app].
  now destruct (IntParse.parse s).
Qed.

Lemma between_chain_meet_str lo hi s :
  fst (meet (Chain [Number; Between lo hi]) (VStr s) [])
  = match IntParse.parse s with
    | Some z =>
        if (lo <=? z) && (z <=? hi) then Ok (VInt z)
        else Raise (Validation (NotInRange lo hi))
    | None => Raise (Validation (NotANumber s))
    end.
Proof.
  cbn [meet py_int]. unfold bind, emit. cbn [app].
  destruct (IntParse.parse s) as [z|]; [|reflexivity].
  unfold ret. cbn [as_int].
  now destruct ((lo <=? z) && (z <=? hi)).
Qed.

Lemma menu_chain_meet_str options s :
  fst (meet (Chain [Number; Between 1 (Z.of_nat (List.length options));
                    Menu options]) (VStr s) [])
  = match IntParse.parse s with
    | Some z =>
        if (1 <=? z) && (z <=? Z.of_nat (List.length options)) then
          match nth_error options (Z.to_nat (z - 1)) with
          | Some x => Ok x
          | None => Raise IndexError
          end
        else Raise (Validation (NotInRange 1 (Z.of_nat (List.length options))))
    | None => Raise (Validation (NotANumber s))
    end.
Proof.
  pose proof (menu_chain_meet options s []) as H. cbv zeta in H. rewrite H.
  destruct (IntParse.parse s) as [z|]; [|reflexivity].
  now destruct ((1 <=? z) && (z <=? _)).
Qed.

Lemma NotEmpty_meet_str s :
  fst (meet NotEmpty (VStr s) [])
  = if Str.is_empty s then Raise (Validation Empty) else Ok (VStr s).
Proof.
  cbn [meet truthy]. unfold bind, emit. cbn [app].
  now destruct (Str.is_empty s).
Qed.

Lemma Choice_meet_str d s :
  fst (meet (Choice d) (VStr s) [])
  = if existsb (String.eqb s) (keys d) then
      match dict_get d s with
      | Some x => Ok x
      | None => Raise KeyError
      end
    else Raise (Validation (NotAnOption (VStr (Str.join "/" (keys d))))).
Proof.
  cbn [meet in_keys hint]. unfold bind, emit. cbn [app].
  destruct (existsb (String.eqb s) (keys d)); [|reflexivity].
  cbn [subscript_dict]. now destruct (dict_get d s).
Qed.

Lemma is_empty_iff s : Str.is_empty s = true <-> s = ""%string.
Proof. destruct s; cbn; split; congruence. Qed.

Lemma dict_get_Some_In d label x :
  dict_get d label = Some x -> In (label, x) d.
Proof.
  induction d as [|[k y] d IH]; cbn [dict_get In]; [discriminate|].
  destruct (String.eqb k label) eqn:E.
  - apply String.eqb_eq in E. intros [= ->]. left. now subst.
  - intros H. right. now apply IH.
Qed.

(** X5.  A value [between] returns is an integer within the bounds, both
    included, read off one of the lines. *)
Theorem between_returns_in_range :
  forall self lo hi lines t v t',
    between self lo hi lines t = (Ok v, t') ->
    exists z line,
      v = VInt z /\ lo <= z <= hi
      /\ In line lines /\ IntParse.parse (Str.strip line) = Some z.
Proof.
  intros self lo hi lines t v t' H. unfold between in H.
  destruct (_prompt_ok_inv _ _ _ _ _ _ H) as (line & Hin & _ & Hv).
  rewrite between_chain_meet_str in Hv.
  destruct (IntParse.parse (Str.strip line)) as [z|] eqn:Hp; [|discriminate].
  destruct ((lo <=? z) && (z <=? hi)) eqn:E; [|discriminate].
  injection Hv as <-. apply range_test_true in E.
  exists z, line. repeat split; try assumption; try reflexivity; apply E.
Qed.

Lemma between_returns_in_range_witness :
  exists z line,
    VInt 3 = VInt z /\ 1 <= z <= 3
    /\ In line ["7"; "+3"]%string /\ IntParse.parse (Str.strip line) = Some z.
Proof.
  apply (between_returns_in_range default_prompt 1 3 ["7"; "+3"]%string []
           (VInt 3) (snd (between default_prompt 1 3 ["7"; "+3"]%string []))).
  vm_compute. reflexivity.
Defined.

(** X6.  A value [menu] returns is the option at the 1-based position
    that [int] reads from the stripped form of one of the lines. *)
Theorem menu_returns_selected_option :
  forall self options lines t v t',
    menu self options lines t = (Ok v, t') ->
    exists z line,
      1 <= z <= Z.of_nat (List.length options)
      /\ nth_error options (Z.to_nat (z - 1)) = Some v
      /\ In v options
      /\ In line lines /\ IntParse.parse (Str.strip line) = Some z.
Proof.
  intros self options lines t v t' H. unfold menu in H.
  destruct (_prompt_ok_inv _ _ _ _ _ _ H) as (line & Hin & _ & Hv).
  rewrite menu_chain_meet_str in Hv.
  destruct (IntParse.parse (Str.strip line)) as [z|] eqn:Hp; [|discriminate].
  destruct ((1 <=? z) && (z <=? _)) eqn:E; [|discriminate].
  apply range_test_true in E.
  destruct (nth_error options (Z.to_nat (z - 1))) as [x|] eqn:Hx;
    [|discriminate].
  injection Hv as <-. exists z, line. repeat split; try tauto.
  eapply nth_error_In; eauto.
Qed.

Lemma menu_returns_selected_option_witness :
  exists z line,
    1 <= z <= Z.of_nat (List.length [VStr "tea"; VStr "milk"])
    /\ nth_error [VStr "tea"; VStr "milk"] (Z.to_nat (z - 1))
       = Some (VStr "milk")
    /\ In (VStr "milk") [VStr "tea"; VStr "milk"]
    /\ In line ["0"; "2"]%string /\ IntParse.parse (Str.strip line) = Some z.
Proof.
  apply (menu_returns_selected_option default_prompt
           [VStr "tea"; VStr "milk"] ["0"; "2"]%string [] (VStr "milk")
           (snd (menu default_prompt [VStr "tea"; VStr "milk"]
                   ["0"; "2"]%string []))).
  vm_compute. reflexivity.
Defined.

(** X7.  A value [choose] returns is the value of an option whose label
    is the stripped form of one of the lines; no label that contains an
    exit keyword is ever chosen. *)
Theorem choose_returns_option_value :
  forall self options lines t v t',
    choose self options lines t = (Ok v, t') ->
    exists label line,
      In line lines /\ label = Str.strip line
      /\ should_exit label = false
      /\ dict_get options label = Some v /\ In (label, v) options.
Proof.
  intros self options lines t v t' H. unfold choose in H.
  destruct (_prompt_ok_inv _ _ _ _ _ _ H) as (line & Hin & Hexit & Hv).
  rewrite Choice_meet_str in Hv.
  destruct (existsb _ (keys options)); [|discriminate].
  destruct (dict_get options (Str.strip line)) as [x|] eqn:Hx;
    [|discriminate].
  injection Hv as <-. exists (Str.strip line), line.
  repeat split; try assumption. now apply dict_get_Some_In.
Qed.

Lemma choose_returns_option_value_witness :
  exists label line,
    In line ["maybe"; " no "]%string /\ label = Str.strip line
    /\ should_exit label = false
    /\ dict_get [("yes"%string, VBool true); ("no"%string, VBool false)] label
       = Some (VBool false)
    /\ In (label, VBool false)
         [("yes"%string, VBool true); ("no"%string, VBool false)].
Proof.
  apply (choose_returns_option_value default_prompt
           [("yes"%string, VBool true); ("no"%string, VBool false)]
           ["maybe"; " no "]%string [] (VBool false)
           (snd (choose default_prompt
                   [("yes"%string, VBool true); ("no"%string, VBool false)]
                   ["maybe"; " no "]%string []))).
  vm_compute. reflexivity.
Defined.

(** X8.  A value [name] returns is the stripped form of one of the
    lines, not empty and free of exit keywords; a line of white space
    only is answered with the message Empty and a new prompt. *)
Theorem name_returns_nonempty_stripped_line :
  (forall self lines t v t',
      name self lines t = (Ok v, t') ->
      exists line,
        In line lines /\ v = VStr (Str.strip line)
        /\ Str.strip line <> ""%string
        /\ should_exit (Str.strip line) = false)
  /\ (forall self line rest t,
         Str.strip line = ""%string ->
         name self (line :: rest) t
         = _prompt_loop self NotEmpty rest
             (t ++ [EInput (_character self); ECall NotEmpty (VStr "");
                    EPrint "Empty" Str.LF])).
Proof.
  split.
  - intros self lines t v t' H. unfold name in H.
    destruct (_prompt_ok_inv _ _ _ _ _ _ H) as (line & Hin & Hexit & Hv).
    rewrite NotEmpty_meet_str in Hv.
    destruct (Str.is_empty (Str.strip line)) eqn:E; [discriminate|].
    injection Hv as <-. exists line. repeat split; try assumption.
    intros Hs. apply is_empty_iff in Hs. congruence.
  - intros self line rest t Hs. unfold name.
    rewrite (_prompt_unfold _ NotEmpty ""%string _ _ eq_refl).
    rewrite (_prompt_loop_cons _ NotEmpty ""%string _ _ _ eq_refl).
    cbv zeta. rewrite Hs.
    unfold describe_events, hint_events. cbn [describe hint nonempty].
    cbn. rewrite app_nil_r, <- !app_assoc. reflexivity.
Qed.

Lemma name_returns_nonempty_stripped_line_witness :
  (exists line,
      In line ["  "; " Ada "]%string /\ VStr "Ada" = VStr (Str.strip line)
      /\ Str.strip line <> ""%string
      /\ should_exit (Str.strip line) = false)
  /\ name default_prompt ["  "; " Ada "]%string []
     = _prompt_loop default_prompt NotEmpty [" Ada "%string]
         ([] ++ [EInput "> "; ECall NotEmpty (VStr ""); EPrint "Empty" Str.LF]).
Proof.
  split.
  - apply (proj1 name_returns_nonempty_stripped_line default_prompt
             ["  "; " Ada "]%string [] (VStr "Ada")
             (snd (name default_prompt ["  "; " Ada "]%string []))).
    vm_compute. reflexivity.
  - apply (proj2 name_returns_nonempty_stripped_line default_prompt
             "  "%string [" Ada "%string] []).
    vm_compute. reflexivity.
Defined.

(** X9.  A value [number] returns is the integer that [int] reads from
    the stripped form of one of the lines. *)
Theorem number_returns_parsed_integer :
  forall self lines t v t',
    number self lines t = (Ok v, t') ->
    exists z line,
      v = VInt z /\ In line lines
      /\ IntParse.parse (Str.strip line) = Some z.
Proof.
  intros self lines t v t' H. unfold number in H.
  destruct (_prompt_ok_inv _ _ _ _ _ _ H) as (line & Hin & _ & Hv).
  rewrite Number_meet_str in Hv.
  destruct (IntParse.parse (Str.strip line)) as [z|] eqn:Hp; [|discriminate].
  injection Hv as <-. exists z, line. repeat split; assumption || reflexivity.
Qed.

Lemma number_returns_parsed_integer_witness :
  exists z line,
    VInt (-12) = VInt z /\ In line ["1.5"; "-12"]%string
    /\ IntParse.parse (Str.strip line) = Some z.
Proof.
  apply (number_returns_parsed_integer default_prompt
           ["1.5"; "-12"]%string [] (VInt (-12))
           (snd (number default_prompt ["1.5"; "-12"]%string []))).
  vm_compute. reflexivity.
Defined.

(** ** How the public operations end *)

Lemma _prompt_loop_ends_cleanly self r h lines :
  hint r = Some h ->
  validates_strings r ->
  forall t, ends_cleanly (fst (_prompt_loop self r lines t)).
Proof.
  intros Hh Hr. induction lines as [|l rest IH]; intros t.
  - rewrite (_prompt_loop_nil _ _ h _ Hh). exact I.
  - rewrite (_prompt_loop_cons _ _ h _ _ _ Hh). cbv zeta.
    destruct (should_exit (Str.strip l)); [exact I|].
    rewrite meet_frame. specialize (Hr (Str.strip l)).
    destruct (fst (meet r (VStr (Str.strip l)) [])) as [x|e]; [exact I|].
    destruct e; try contradiction. apply IH.
Qed.

Lemma _prompt_ends self r lines t :
  validates_strings r ->
  if displays r then ends_cleanly (fst (_prompt self r lines t))
  else fst (_prompt self r lines t) = Raise ValueError.
Proof.
  intros Hr. unfold displays. destruct (describe r) as [d|] eqn:Hd.
  2:{ now rewrite (_prompt_unwritable _ _ _ _ Hd). }
  rewrite (_prompt_unfold _ _ d _ _ Hd).
  destruct (hint r) as [h|] eqn:Hh.
  - now apply (_prompt_loop_ends_cleanly _ _ h).
  - now rewrite (_prompt_loop_unwritable _ _ _ _ Hh).
Qed.

Lemma validates_strings_Number : validates_strings Number.
Proof.
  intros s. rewrite Number_meet_str. now destruct (IntParse.parse s).
Qed.

Lemma validates_strings_NotEmpty : validates_strings NotEmpty.
Proof.
  intros s. rewrite NotEmpty_meet_str. now destruct (Str.is_empty s).
Qed.

Lemma validates_strings_between lo hi :
  validates_strings (Chain [Number; Between lo hi]).
Proof.
  intros s. rewrite between_chain_meet_str.
  destruct (IntParse.parse s) as [z|]; [|exact I].
  now destruct ((lo <=? z) && (z <=? hi)).
Qed.

Lemma validates_strings_Choice d : validates_strings (Choice d).
Proof.
  intros s. rewrite Choice_meet_str.
  destruct (existsb (String.eqb s) (keys d)) eqn:E; [|exact I].
  apply existsb_eqb_In in E.
  destruct (dict_get_In d s E) as (x & Hx & _). now rewrite Hx.
Qed.

Lemma validates_strings_menu options :
  validates_strings
    (Chain [Number; Between 1 (Z.of_nat (List.length options)); Menu options]).
Proof.
  intros s. rewrite menu_chain_meet_str.
  destruct (IntParse.parse s) as [z|]; [|exact I].
  destruct ((1 <=? z) && (z <=? _)) eqn:E; [|exact I].
  apply range_test_true in E.
  destruct (nth_error_in_range options z E) as (x & Hx). now rewrite Hx.
Qed.

Lemma displays_between lo hi :
  displays (Chain [Number; Between lo hi])
  = match Str.of_Z lo, Str.of_Z hi with
    | Some _, Some _ => true
    | _, _ => false
    end.
Proof.
  unfold displays. cbn [describe hint option_map nonempty Str.is_empty negb].
  destruct (lo =? hi) eqn:E.
  - apply Z.eqb_eq in E. subst hi. now destruct (Str.of_Z lo).
  - now destruct (Str.of_Z lo), (Str.of_Z hi).
Qed.

(** X10.  Each of the five public operations ends with a value, with
    Exit or with the end of the input: no TypeError, KeyError, IndexError
    or AssertionError comes out of the requirements they compose.  The
    one exception is a bound of [between], or an item or the length of
    [menu], that is too long to be written: then the operation raises
    ValueError. *)
Theorem public_operations_end_cleanly :
  forall self lines t,
    (forall lo hi,
        match Str.of_Z lo, Str.of_Z hi with
        | Some _, Some _ => ends_cleanly (fst (between self lo hi lines t))
        | _, _ => fst (between self lo hi lines t) = Raise ValueError
        end)
    /\ (forall options, ends_cleanly (fst (choose self options lines t)))
    /\ (forall options,
           if displays (Chain [Number;
                               Between 1 (Z.of_nat (List.length options));
                               Menu options])
           then ends_cleanly (fst (menu self options lines t))
           else fst (menu self options lines t) = Raise ValueError)
    /\ ends_cleanly (fst (name self lines t))
    /\ ends_cleanly (fst (number self lines t)).
Proof.
  intros self lines t.
  unfold between, choose, menu, name, number.
  split; [|split; [|split; [|split]]].
  - intros lo hi.
    pose proof (_prompt_ends self _ lines t (validates_strings_between lo hi))
      as H.
    rewrite displays_between in H.
    now destruct (Str.of_Z lo), (Str.of_Z hi).
  - intros options.
    exact (_prompt_ends self _ lines t (validates_strings_Choice options)).
  - intros options.
    exact (_prompt_ends self _ lines t (validates_strings_menu options)).
  - exact (_prompt_ends self _ lines t validates_strings_NotEmpty).
  - exact (_prompt_ends self _ lines t validates_strings_Number).
Qed.

Lemma never_ok_ends o :
  (forall v, o <> Ok v) ->
  (ends_cleanly o \/ o = Raise ValueError) ->
  o = Raise Exit \/ o = Raise EOFError \/ o = Raise ValueError.
Proof.
  intros Hv [H| ->]; [|auto].
  destruct o as [v|e]; [now destruct (Hv v)|].
  destruct e; try contradiction; auto.
Qed.

(** X11.  With bounds that leave no integer, [between] never returns a
    value, and neither does [menu] without options: they end with Exit
    or with the end of the input (or, for bounds too long to be
    written, with ValueError). *)
Theorem empty_range_never_returns :
  (forall self lo hi lines t,
      hi < lo ->
      fst (between self lo hi lines t) = Raise Exit
      \/ fst (between self lo hi lines t) = Raise EOFError
      \/ fst (between self lo hi lines t) = Raise ValueError)
  /\ (forall self lines t,
         fst (menu self [] lines t) = Raise Exit
         \/ fst (menu self [] lines t) = Raise EOFError).
Proof.
  split.
  - intros self lo hi lines t Hlt. apply never_ok_ends.
    + intros v Hv. unfold between in Hv.
      destruct (_prompt _ _ _ _) as [o t'] eqn:E. cbn [fst] in Hv. subst o.
      destruct (_prompt_ok_inv _ _ _ _ _ _ E) as (line & _ & _ & Hm).
      rewrite between_chain_meet_str in Hm.
      destruct (IntParse.parse (Str.strip line)) as [z|]; [|discriminate].
      destruct ((lo <=? z) && (z <=? hi)) eqn:R; [|discriminate].
      apply range_test_true in R. lia.
    + pose proof (_prompt_ends self _ lines t
                    (validates_strings_between lo hi)) as H.
      unfold between. destruct (displays _); auto.
  - intros self lines t.
    pose proof (_prompt_ends self _ lines t (validates_strings_menu [])) as H.
    change (displays _) with true in H. cbv iota in H. fold (menu self []) in H.
    destruct (menu self [] lines t) as [o t'] eqn:E. cbn [fst] in *.
    destruct o as [v|e].
    + destruct (_prompt_ok_inv _ _ _ _ _ _ E) as (line & _ & _ & Hm).
      rewrite (menu_chain_meet_str []) in Hm.
      destruct (IntParse.parse (Str.strip line)) as [z|]; [|discriminate].
      destruct ((1 <=? z) && (z <=? _)) eqn:R; [|discriminate].
      apply range_test_true in R. cbn in R. lia.
    + destruct e; try contradiction; auto.
Qed.

Lemma empty_range_never_returns_witness :
  fst (between default_prompt 3 1 ["2"; "1"]%string []) = Raise Exit
  \/ fst (between default_prompt 3 1 ["2"; "1"]%string []) = Raise EOFError
  \/ fst (between default_prompt 3 1 ["2"; "1"]%string []) = Raise ValueError.
Proof.
  apply (proj1 empty_range_never_returns default_prompt 3 1
           ["2"; "1"]%string []).
  lia.
Defined.

(** X12.  [_test_exit] raises Exit on exactly the strings whose
    lowercased form contains "exit" or "quit"; on every other string it
    returns and leaves no trace. *)
Theorem test_exit_exact :
  forall s t,
    ((exists kw pre post,
         In kw EXIT /\ Str.lower s = (pre ++ kw ++ post)%string) ->
     _test_exit s t = (Raise Exit, t))
    /\ (~ (exists kw pre post,
              In kw EXIT /\ Str.lower s = (pre ++ kw ++ post)%string) ->
        _test_exit s t = (Ok tt, t)).
Proof.
  intros s t. unfold _test_exit. split; intros H.
  - apply should_exit_iff in H. now rewrite H.
  - destruct (should_exit s) eqn:E; [|reflexivity].
    apply should_exit_iff in E. contradiction.
Qed.

Lemma test_exit_exact_witness :
  _test_exit "Quit!" [] = (Raise Exit, [])
  /\ _test_exit "exi t" [] = (Ok tt, []).
Proof.
  split.
  - apply (proj1 (test_exit_exact "Quit!"%string [])).
    exists "quit"%string, ""%string, "!"%string. split.
    + cbn. right. left. reflexivity.
    + vm_compute. reflexivity.
  - apply (proj2 (test_exit_exact "exi t"%string [])).
    intros H. apply should_exit_iff in H. vm_compute in H. discriminate H.
Defined.

(** * Menus and chains *)
















(** ** Outcomes of chains *)

Lemma fst_bind {A B} P (m : M A) (f : A -> M B) :
  logs_only P m -> (forall a, logs_only P (f a)) ->
  forall t,
    fst (bind m f t)
    = match fst (m []) with
      | Ok a => fst (f a [])
      | Raise e => Raise e
      end.
Proof.
  intros (o & evs & _ & Hm) Hf t. unfold bind. rewrite (Hm t), (Hm []).
  destruct o as [a|e]; [|reflexivity]. cbn [fst].
  apply (logs_only_fst P (f a) (Hf a)).
Qed.

Lemma logs_only_meet_all' rs v : logs_only is_call (meet_all rs v).
Proof.
  apply logs_only_meet_all. apply Forall_forall. intros r _.
  apply logs_only_meet.
Qed.

Lemma fst_meet_Chain rs v t :
  fst (meet (Chain rs) v t) = fst (meet_all rs v []).
Proof.
  rewrite meet_Chain. unfold bind, emit.
  apply (logs_only_fst _ _ (logs_only_meet_all' rs v)).
Qed.

Lemma fst_meet_all_cons r rs v t :
  fst (meet_all (r :: rs) v t)
  = match fst (meet r v []) with
    | Ok x => fst (meet_all rs x [])
    | Raise e => Raise e
    end.
Proof.
  cbn [meet_all]. apply (fst_bind is_call).
  - apply logs_only_meet.
  - intros a. apply logs_only_meet_all'.
Qed.

Lemma fst_meet_all_app pre post v t :
  fst (meet_all (pre ++ post) v t)
  = match fst (meet_all pre v []) with
    | Ok x => fst (meet_all post x [])
    | Raise e => Raise e
    end.
Proof.
  rewrite meet_all_app. apply (fst_bind is_call).
  - apply logs_only_meet_all'.
  - intros a. apply logs_only_meet_all'.
Qed.

(** X14.  A chain inside a chain gives the outcome of the chain with the
    inner requirements written in its place: composition of chains is
    associative. *)
Theorem Chain_meet_flattens :
  forall pre mid post v t1 t2,
    fst (meet (Chain (pre ++ Chain mid :: post)) v t1)
    = fst (meet (Chain (pre ++ mid ++ post)) v t2).
Proof.
  intros pre mid post v t1 t2.
  rewrite !fst_meet_Chain, !(fst_meet_all_app pre).
  destruct (fst (meet_all pre v [])) as [x|e]; [|reflexivity].
  rewrite fst_meet_all_cons, fst_meet_Chain, fst_meet_all_app.
  reflexivity.
Qed.
Lemma _prompt_loop_outcome_ext self r1 r2 lines :
  hint r1 = hint r2 ->
  (forall s, fst (meet r1 (VStr s) []) = fst (meet r2 (VStr s) [])) ->
  forall t1 t2,
    fst (_prompt_loop self r1 lines t1) = fst (_prompt_loop self r2 lines t2).
Proof.
  intros Hh H. destruct (hint r2) as [h|] eqn:Hh2.
  2:{ intros t1 t2. rewrite (_prompt_loop_unwritable _ _ _ _ Hh).
      now rewrite (_prompt_loop_unwritable _ _ _ _ Hh2). }
  induction lines as [|l rest IH]; intros t1 t2.
  - rewrite (_prompt_loop_nil _ _ h _ Hh).
    now rewrite (_prompt_loop_nil _ _ h _ Hh2).
  - rewrite (_prompt_loop_cons _ _ h _ _ _ Hh).
    rewrite (_prompt_loop_cons _ _ h _ _ _ Hh2). cbv zeta.
    destruct (should_exit (Str.strip l)); [reflexivity|].
    rewrite (meet_frame r1), (meet_frame r2), H.
    destruct (fst (meet r2 (VStr (Str.strip l)) [])) as [x|e]; [reflexivity|].
    destruct e; try reflexivity. apply IH.
Qed.

Lemma nonempty_false s : nonempty s = false -> s = ""%string.
Proof.
  unfold nonempty. intros H. apply is_empty_iff.
  now destruct (Str.is_empty s).
Qed.

(** X15.  A chain of one requirement behaves as the requirement: the
    same outcome of [meet], the same hint and display string, and the
    same outcome of a prompt. *)
Theorem Chain_singleton :
  forall r,
    (forall v t1 t2, fst (meet (Chain [r]) v t1) = fst (meet r v t2))
    /\ hint (Chain [r]) = hint r
    /\ describe (Chain [r]) = describe r
    /\ (forall self lines t1 t2,
           fst (_prompt self (Chain [r]) lines t1)
           = fst (_prompt self r lines t2)).
Proof.
  intros r.
  assert (Hm : forall v t1 t2,
             fst (meet (Chain [r]) v t1) = fst (meet r v t2)).
  { intros v t1 t2. rewrite fst_meet_Chain, fst_meet_all_cons.
    rewrite (logs_only_fst _ _ (logs_only_meet r v) t2 []).
    now destruct (fst (meet r v [])). }
  assert (Hh : hint (Chain [r]) = hint r).
  { cbn [hint]. destruct (hint r) as [h|]; [|reflexivity].
    cbn [option_map]. destruct (nonempty h) eqn:E; [reflexivity|].
    cbn [Str.join]. f_equal. symmetry. now apply nonempty_false. }
  assert (Hd : describe (Chain [r]) = describe r).
  { cbn [describe]. destruct (describe r) as [d|]; [|reflexivity].
    cbn [option_map]. destruct (nonempty d) eqn:E; [reflexivity|].
    cbn [Str.join]. f_equal. symmetry. now apply nonempty_false. }
  split; [exact Hm|]. split; [exact Hh|]. split; [exact Hd|].
  intros self lines t1 t2. destruct (describe r) as [d|] eqn:E.
  - rewrite (_prompt_unfold _ _ d _ _ Hd), (_prompt_unfold _ _ d _ _ E).
    apply _prompt_loop_outcome_ext; [exact Hh|]. intros s. apply Hm.
  - rewrite (_prompt_unwritable _ _ _ _ Hd).
    now rewrite (_prompt_unwritable _ _ _ _ E).
Qed.

(** ** Hints and display strings of nested chains *)

Lemma string_app_assoc (a b c : string) :
  ((a ++ b) ++ c = a ++ (b ++ c))%string.
Proof.
  induction a as [|x a IH]; cbn [String.append]; [reflexivity|].
  now rewrite IH.
Qed.

Lemma join_app sep (a b : list string) :
  a <> [] -> b <> [] ->
  Str.join sep (a ++ b) = (Str.join sep a ++ sep ++ Str.join sep b)%string.
Proof.
  intros Ha Hb. induction a as [|x a IH]; [contradiction|].
  destruct a as [|y a].
  - destruct b as [|z b]; [contradiction|]. reflexivity.
  - change (Str.join sep ((x :: y :: a) ++ b))
      with (x ++ sep ++ Str.join sep ((y :: a) ++ b))%string.
    rewrite IH by discriminate.
    change (Str.join sep (x :: y :: a))
      with (x ++ sep ++ Str.join sep (y :: a))%string.
    now rewrite !string_app_assoc.
Qed.

Lemma join_middle sep (a b c : list string) :
  b <> [] ->
  Str.join sep (a ++ [Str.join sep b] ++ c) = Str.join sep (a ++ b ++ c).
Proof.
  intros Hb.
  assert (H0 : Str.join sep ([Str.join sep b] ++ c) = Str.join sep (b ++ c)).
  { destruct c as [|z c]; [now rewrite !app_nil_r|].
    rewrite (join_app sep b (z :: c)) by (assumption || discriminate).
    reflexivity. }
  destruct a as [|x a]; [exact H0|].
  rewrite !(join_app sep (x :: a)); try discriminate.
  - now rewrite H0.
  - destruct b; [contradiction|discriminate].
Qed.

Lemma nonempty_join sep (l : list string) :
  Forall (fun s => nonempty s = true) l ->
  nonempty (Str.join sep l) = match l with [] => false | _ => true end.
Proof.
  intros H. destruct H as [|x l Hx _]; [reflexivity|].
  destruct x as [|c x]; [discriminate Hx|].
  now destruct l.
Qed.

Lemma Forall_filter_nonempty (l : list string) :
  Forall (fun s => nonempty s = true) (filter nonempty l).
Proof.
  apply Forall_forall. intros s Hs. now apply filter_In in Hs.
Qed.

Lemma all_some_app {A} (a b : list (option A)) :
  all_some (a ++ b)
  = match all_some a, all_some b with
    | Some x, Some y => Some (x ++ y)
    | _, _ => None
    end.
Proof.
  induction a as [|o a IH]; cbn [app all_some].
  - now destruct (all_some b).
  - rewrite IH. destruct o as [x|]; [|reflexivity].
    destruct (all_some a) as [xs|]; [|reflexivity].
    now destruct (all_some b).
Qed.

Lemma join_filter_flatten sep (a b c : list string) :
  Str.join sep
    (filter nonempty (a ++ Str.join sep (filter nonempty b) :: c))
  = Str.join sep (filter nonempty (a ++ b ++ c)).
Proof.
  rewrite !filter_app. cbn [filter].
  rewrite nonempty_join by apply Forall_filter_nonempty.
  destruct (filter nonempty b) as [|x xs] eqn:E; [reflexivity|].
  rewrite <- E.
  change (Str.join sep (filter nonempty b) :: filter nonempty c)
    with ([Str.join sep (filter nonempty b)] ++ filter nonempty c).
  apply join_middle. rewrite E. discriminate.
Qed.

Lemma filter_map_flatten (f : requirement -> option string) sep pre mid post :
  f (Chain mid)
  = option_map (fun xs => Str.join sep (filter nonempty xs))
      (all_some (map f mid)) ->
  option_map (fun xs => Str.join sep (filter nonempty xs))
    (all_some (map f (pre ++ Chain mid :: post)))
  = option_map (fun xs => Str.join sep (filter nonempty xs))
      (all_some (map f (pre ++ mid ++ post))).
Proof.
  intros Hf.
  rewrite !map_app, !all_some_app. cbn [map all_some]. rewrite Hf.
  destruct (all_some (map f pre)) as [a|]; [|reflexivity].
  destruct (all_some (map f mid)) as [b|]; [|reflexivity].
  destruct (all_some (map f post)) as [c|]; [|reflexivity].
  cbn [option_map]. f_equal. apply join_filter_flatten.
Qed.

(** X16.  The hint and the display string of a chain do not change when
    an inner chain is replaced by its requirements. *)
Theorem Chain_hint_describe_flatten :
  forall pre mid post,
    hint (Chain (pre ++ Chain mid :: post))
    = hint (Chain (pre ++ mid ++ post))
    /\ describe (Chain (pre ++ Chain mid :: post))
       = describe (Chain (pre ++ mid ++ post)).
Proof.
  intros pre mid post.
  assert (Hh : forall rs,
             hint (Chain rs)
             = option_map (fun xs => Str.join ", " (filter nonempty xs))
                 (all_some (map hint rs))).
  { intros rs. cbn [hint]. rewrite (comprehension_filter_map hint).
    apply option_map_compose. }
  assert (Hd : forall rs,
             describe (Chain rs)
             = option_map (fun xs => Str.join Str.LF (filter nonempty xs))
                 (all_some (map describe rs))).
  { intros rs. cbn [describe]. rewrite (comprehension_filter_map describe).
    apply option_map_compose. }
  split.
  - rewrite !Hh. apply filter_map_flatten. apply Hh.
  - rewrite !Hd. apply filter_map_flatten. apply Hd.
Qed.

(** * The trace of a prompt *)

(** X17.  An exception of [meet] that is no ValidationError is not
    retried: it ends the prompt at the line that caused it, with nothing
    written after the calls of [meet].  (Where the hint or the display
    string cannot be written, the prompt has raised ValueError before
    any line is read.) *)
Theorem prompt_propagates_defects :
  forall self r retried line rest t e,
    Forall (rejected r) retried ->
    should_exit (Str.strip line) = false ->
    fst (meet r (VStr (Str.strip line)) []) = Raise e ->
    (forall ve, e <> Validation ve) ->
    _prompt self r (retried ++ line :: rest) t
    = if displays r
      then (Raise e,
            snd (_prompt self r retried t)
              ++ snd (meet r (VStr (Str.strip line)) []))
      else (Raise ValueError, snd (_prompt self r retried t)).
Proof.
  intros self r retried line rest t e Hret Hexit He Hne.
  unfold displays. destruct (describe r) as [d|] eqn:Hd.
  2:{ now rewrite !(_prompt_unwritable _ _ _ _ Hd). }
  rewrite !(_prompt_unfold _ _ d _ _ Hd).
  destruct (hint r) as [h|] eqn:Hh.
  2:{ now rewrite !(_prompt_loop_unwritable _ _ _ _ Hh). }
  generalize (t ++ describe_events r). clear t.
  induction Hret as [|l retried Hl _ IH]; intros t.
  - cbn [app]. rewrite (_prompt_loop_cons _ _ h _ _ _ Hh).
    rewrite (_prompt_loop_nil _ _ h _ Hh). cbv zeta.
    rewrite Hexit, meet_frame, He. cbn [snd].
    destruct e; try reflexivity. now destruct (Hne e).
  - destruct (rejected_step self r h l t Hh Hl) as (t1 & Ht1).
    cbn [app]. rewrite !Ht1. apply IH.
Qed.

Lemma prompt_propagates_defects_witness :
  _prompt default_prompt (Between 1 3) ([] ++ "2"%string :: ["3"%string]) []
  = (Raise TypeError,
     snd (_prompt default_prompt (Between 1 3) [] [])
       ++ snd (meet (Between 1 3) (VStr (Str.strip "2")) [])).
Proof.
  apply (prompt_propagates_defects default_prompt (Between 1 3) []
           "2"%string ["3"%string] [] TypeError).
  - constructor.
  - vm_compute. reflexivity.
  - vm_compute. reflexivity.
  - intros ve. discriminate.
Defined.

Lemma logs_only_print_hint r : logs_only (fun _ => True) (_print_hint r).
Proof.
  unfold _print_hint, _print.
  apply logs_only_bind; [apply logs_only_checked|intros h].
  destruct (negb (nonempty h)).
  - apply logs_only_ret.
  - now apply logs_only_emit.
Qed.

Lemma logs_only_print_requirement r :
  logs_only (fun _ => True) (_print_requirement r).
Proof.
  unfold _print_requirement, _print.
  apply logs_only_bind; [apply logs_only_checked|intros d].
  destruct (negb (nonempty d)).
  - apply logs_only_ret.
  - now apply logs_only_emit.
Qed.

Lemma logs_only_prompt_loop self r lines :
  logs_only (fun _ => True) (_prompt_loop self r lines).
Proof.
  induction lines as [|l rest IH]; cbn [_prompt_loop].
  - apply logs_only_bind; [apply logs_only_print_hint|intros _].
    apply logs_only_bind; [now apply logs_only_emit|intros _].
    apply logs_only_raise.
  - apply logs_only_bind; [apply logs_only_print_hint|intros _].
    apply logs_only_bind; [now apply logs_only_emit|intros _].
    cbv zeta. apply logs_only_bind.
    { unfold _test_exit. destruct (should_exit (Str.strip l));
        [apply logs_only_raise|apply logs_only_ret]. }
    intros _. apply logs_only_bind.
    + apply logs_only_try_except.
      * apply logs_only_bind; [|intros x; apply logs_only_ret].
        eapply logs_only_weaken; [|apply logs_only_meet]. easy.
      * intros e. apply logs_only_bind; [apply logs_only_checked|].
        intros message.
        apply logs_only_bind; [|intros _; apply logs_only_ret].
        unfold _print. now apply logs_only_emit.
    + intros [x|]; [apply logs_only_ret|exact IH].
Qed.

Lemma logs_only_prompt self r lines :
  logs_only (fun _ => True) (_prompt self r lines).
Proof.
  unfold _prompt.
  apply logs_only_bind; [apply logs_only_print_requirement|intros _].
  apply logs_only_prompt_loop.
Qed.

Lemma _prompt_loop_trace_head self r h lines t :
  hint r = Some h ->
  exists rest,
    snd (_prompt_loop self r lines t)
    = t ++ hint_events r ++ [EInput (_character self)] ++ rest.
Proof.
  intros Hh. destruct lines as [|l lines].
  - rewrite (_prompt_loop_nil _ _ h _ Hh). exists []. cbn [snd].
    now rewrite app_nil_r.
  - rewrite (_prompt_loop_cons _ _ h _ _ _ Hh). cbv zeta.
    destruct (should_exit (Str.strip l)).
    { exists []. cbn [snd]. now rewrite app_nil_r. }
    rewrite meet_frame.
    set (calls := snd (meet r (VStr (Str.strip l)) [])).
    destruct (fst (meet r (VStr (Str.strip l)) [])) as [x|e].
    { exists calls. cbn [snd]. now rewrite <- !app_assoc. }
    destruct e; try (exists calls; cbn [snd]; now rewrite <- !app_assoc).
    rewrite (logs_only_frame _ _ (logs_only_prompt_loop self r lines)).
    cbn [snd]. eexists. rewrite <- !app_assoc. cbn [app]. reflexivity.
Qed.

(** X18.  A prompt does not depend on what was written before it: it
    has one outcome and appends one list of events.  When the display
    string and the hint can be written, that list begins with the
    display string, if it is not empty, then the hint, if it is not
    empty, then the first read; otherwise the prompt raises ValueError
    and reads nothing. *)
Theorem prompt_trace_structure :
  forall self r lines t,
    _prompt self r lines t
    = (fst (_prompt self r lines []), t ++ snd (_prompt self r lines []))
    /\ if displays r then
         exists rest,
           snd (_prompt self r lines [])
           = describe_events r ++ hint_events r
               ++ [EInput (_character self)] ++ rest
       else
         fst (_prompt self r lines []) = Raise ValueError
         /\ filter is_read (snd (_prompt self r lines [])) = [].
Proof.
  intros self r lines t. split.
  - apply (logs_only_frame _ _ (logs_only_prompt self r lines)).
  - unfold displays. destruct (describe r) as [d|] eqn:Hd.
    2:{ now rewrite (_prompt_unwritable _ _ _ _ Hd). }
    rewrite (_prompt_unfold _ _ d _ _ Hd). cbn [app].
    destruct (hint r) as [h|] eqn:Hh.
    + now apply (_prompt_loop_trace_head _ _ h).
    + rewrite (_prompt_loop_unwritable _ _ _ _ Hh). cbn [fst snd].
      split; [reflexivity|apply describe_events_no_read].
Qed.

Lemma hint_events_hint_prints r h :
  hint r = Some h ->
  List.length (filter is_hint_print (hint_events r))
  = if nonempty h then 1%nat else 0%nat.
Proof.
  intros Hh. unfold hint_events. rewrite Hh. now destruct (nonempty h).
Qed.

Lemma describe_events_no_hint_print r :
  filter is_hint_print (describe_events r) = [].
Proof.
  unfold describe_events. destruct (describe r) as [d|]; [|reflexivity].
  now destruct (nonempty d).
Qed.

Lemma _prompt_loop_hint_per_read self r h lines :
  hint r = Some h ->
  forall t,
  exists k,
    (1 <= k <= List.length lines + 1)%nat
    /\ List.length (filter is_read (snd (_prompt_loop self r lines t)))
       = (List.length (filter is_read t) + k)%nat
    /\ List.length (filter is_hint_print (snd (_prompt_loop self r lines t)))
       = (List.length (filter is_hint_print t)
          + if nonempty h then k else 0)%nat.
Proof.
  intros Hh. induction lines as [|l rest IH]; intros t.
  - rewrite (_prompt_loop_nil _ _ h _ Hh). cbn [snd]. exists 1%nat.
    rewrite !filter_app, !length_app, hint_events_no_read,
      (hint_events_hint_prints r h Hh).
    cbn. destruct (nonempty h); repeat split; lia.
  - rewrite (_prompt_loop_cons _ _ h _ _ _ Hh). cbv zeta.
    assert (H1 : forall calls msg,
               Forall is_call calls ->
               List.length
                 (filter is_read
                    ((t ++ hint_events r ++ [EInput (_character self)])
                       ++ calls ++ msg))
               = (List.length (filter is_read t) + 1
                  + List.length (filter is_read msg))%nat
               /\ List.length
                    (filter is_hint_print
                       ((t ++ hint_events r ++ [EInput (_character self)])
                          ++ calls ++ msg))
                  = (List.length (filter is_hint_print t)
                     + (if nonempty h then 1 else 0)
                     + List.length (filter is_hint_print msg))%nat).
    { intros calls msg Hc.
      rewrite !filter_app, !length_app, hint_events_no_read,
        (hint_events_hint_prints r h Hh).
      rewrite (filter_calls_nil is_read calls) by (assumption || reflexivity).
      rewrite (filter_calls_nil is_hint_print calls)
        by (assumption || reflexivity).
      cbn. split; lia. }
    destruct (should_exit (Str.strip l)).
    { exists 1%nat. cbn [snd].
      destruct (H1 [] [] (Forall_nil _)) as (Ha & Hb).
      cbn [app] in Ha, Hb. rewrite app_nil_r in Ha, Hb. rewrite Ha, Hb.
      cbn. destruct (nonempty h); repeat split; lia. }
    rewrite meet_frame.
    pose proof (meet_calls r (VStr (Str.strip l))) as Hc.
    set (calls := snd (meet r (VStr (Str.strip l)) [])) in *.
    assert (Hone : exists k,
               (1 <= k <= List.length (l :: rest) + 1)%nat
               /\ List.length
                    (filter is_read
                       ((t ++ hint_events r ++ [EInput (_character self)])
                          ++ calls))
                  = (List.length (filter is_read t) + k)%nat
               /\ List.length
                    (filter is_hint_print
                       ((t ++ hint_events r ++ [EInput (_character self)])
                          ++ calls))
                  = (List.length (filter is_hint_print t)
                     + if nonempty h then k else 0)%nat).
    { exists 1%nat. destruct (H1 calls [] Hc) as (Ha & Hb).
      rewrite app_nil_r in Ha, Hb. rewrite Ha, Hb.
      cbn. destruct (nonempty h); repeat split; lia. }
    destruct (fst (meet r (VStr (Str.strip l)) [])) as [x|e];
      [exact Hone|].
    destruct e; try exact Hone.
    destruct (IH (((t ++ hint_events r ++ [EInput (_character self)])
                     ++ calls)
                    ++ [EPrint (message_of e) Str.LF]))
      as (k & Hk & Hr & Hhp).
    exists (S k). rewrite Hr, Hhp. rewrite <- !app_assoc.
    destruct (H1 calls [EPrint (message_of e) Str.LF] Hc)
      as (Ha & Hb).
    rewrite <- !app_assoc in Ha, Hb. rewrite Ha, Hb.
    cbn. destruct (nonempty h); repeat split; lia.
Qed.

(** X19.  When the display string and the hint can be written, a prompt
    reads at least once and at most once more than there are lines, and
    a hint that is not empty is written once for every read; otherwise
    the prompt reads nothing and writes no hint. *)
Theorem prompt_hint_before_every_read :
  forall self r lines,
    match describe r, hint r with
    | Some _, Some h =>
        exists k,
          (1 <= k <= List.length lines + 1)%nat
          /\ List.length (filter is_read (snd (_prompt self r lines []))) = k
          /\ List.length
               (filter is_hint_print (snd (_prompt self r lines [])))
             = if nonempty h then k else 0%nat
    | _, _ =>
        filter is_read (snd (_prompt self r lines [])) = []
        /\ filter is_hint_print (snd (_prompt self r lines [])) = []
    end.
Proof.
  intros self r lines. destruct (describe r) as [d|] eqn:Hd.
  2:{ rewrite (_prompt_unwritable _ _ _ _ Hd). split; reflexivity. }
  rewrite (_prompt_unfold _ _ d _ _ Hd). cbn [app].
  destruct (hint r) as [h|] eqn:Hh.
  2:{ rewrite (_prompt_loop_unwritable _ _ _ _ Hh). cbn [snd].
      split; [apply describe_events_no_read
             |apply describe_events_no_hint_print]. }
  destruct (_prompt_loop_hint_per_read self r h lines Hh (describe_events r))
    as (k & Hk & Hr & Hhp).
  exists k. rewrite Hr, Hhp.
  rewrite describe_events_no_read, describe_events_no_hint_print.
  split; [exact Hk|]. split; reflexivity.
Qed.
